(** * gutenberg/export.py: static export of the book catalogue

    A shallow embedding of the parts of [export.py] that decide how book
    markup is rewritten: the link rewriter, the boilerplate stripper of
    [update_html_for_static], the popularity thresholds of
    [export_all_books], the fallback of [export_book_to] and the archive
    patcher [optimize_epub].

    Python objects are modelled as follows.
    - A [unicode] object is the list of its code points.
    - A BeautifulSoup tag is a tree; the [contents] of a tag is a list and
      [children] is a list iterator over it, so a [decompose] inside a
      [for] loop shifts the elements the iterator has not reached yet.
    - An exception is the [None] of an [option] result, or the [Raised]
      outcome where the state reached so far matters. *)

From stdpp Require Import base list gmap strings pretty.
From Stdlib Require Import ZArith NArith Ascii Lia.

Local Open Scope N_scope.

(** ** Python [unicode] objects *)

Module Py.

Definition unicode := list N.

(** Code points of a literal of the source file, which is UTF-8 encoded
    ([# -*- coding: utf-8 -*-] with [unicode_literals]). *)
Fixpoint utf8_decode (bs : list N) : unicode :=
  match bs with
  | [] => []
  | b :: r =>
      if b <? 128 then b :: utf8_decode r
      else if b <? 224 then
        match r with
        | c1 :: r1 => ((b - 192) * 64 + (c1 - 128)) :: utf8_decode r1
        | _ => []
        end
      else if b <? 240 then
        match r with
        | c1 :: c2 :: r2 =>
            ((b - 224) * 4096 + (c1 - 128) * 64 + (c2 - 128)) :: utf8_decode r2
        | _ => []
        end
      else
        match r with
        | c1 :: c2 :: c3 :: r3 =>
            ((b - 240) * 262144 + (c1 - 128) * 4096 + (c2 - 128) * 64 + (c3 - 128))
              :: utf8_decode r3
        | _ => []
        end
  end.

Fixpoint bytes_of (s : string) : list N :=
  match s with
  | EmptyString => []
  | String a s' => N_of_ascii a :: bytes_of s'
  end.

Definition u (s : string) : unicode := utf8_decode (bytes_of s).

(** [s.startswith(p)] *)
Fixpoint startswith (s p : unicode) : bool :=
  match p, s with
  | [], _ => true
  | _ :: _, [] => false
  | x :: p', y :: s' => (x =? y) && startswith s' p'
  end.

(** [s.endswith(p)] *)
Definition endswith (s p : unicode) : bool := startswith (rev s) (rev p).

(** [needle in hay] on strings: [needle] occurs as a substring. *)
Fixpoint contains (needle hay : unicode) : bool :=
  startswith hay needle
  || match hay with
     | [] => false
     | _ :: hay' => contains needle hay'
     end.

(** [s.rsplit(sep, 1)] for a one-character separator: [None] when the
    result has one element ([sep] does not occur), otherwise the parts
    before and after the last [sep]. *)
Fixpoint rsplit1 (sep : N) (s : unicode) : option (unicode * unicode) :=
  match s with
  | [] => None
  | c :: s' =>
      match rsplit1 sep s' with
      | Some (a, b) => Some (c :: a, b)
      | None => if c =? sep then Some ([], s') else None
      end
  end.

(** [unicode.isspace] of Python 2.7 ([_PyUnicode_IsWhitespace]). *)
Definition isspace (c : N) : bool :=
  ((9 <=? c) && (c <=? 13)) || ((28 <=? c) && (c <=? 32))
  || (c =? 133) || (c =? 160) || (c =? 5760) || (c =? 6158)
  || ((8192 <=? c) && (c <=? 8202)) || (c =? 8232) || (c =? 8233)
  || (c =? 8239) || (c =? 8287) || (c =? 12288).

Fixpoint lstrip (s : unicode) : unicode :=
  match s with
  | [] => []
  | c :: s' => if isspace c then lstrip s' else s
  end.

(** [s.strip()] *)
Definition strip (s : unicode) : unicode := rev (lstrip (rev (lstrip s))).

(** ["{}".format(n)] for an integer. *)
Definition format_int (n : Z) : unicode := u (pretty n).

(** [sep.join(parts)] *)
Fixpoint join (sep : unicode) (parts : list unicode) : unicode :=
  match parts with
  | [] => []
  | [p] => p
  | p :: ps => p ++ sep ++ join sep ps
  end.

End Py.

Import Py.

(** ** The link rewriter of [update_html_for_static] *)

Definition hash : N := 35.
Definition slash : unicode := [47].
Definition underscore : unicode := [95].

(** [replacablement_link(book, url)]; [None] is Python's [None], for
    which the caller leaves the [href] as it is. *)
Definition replacablement_link (book_id : Z) (url : unicode) : option unicode :=
  let '(urlp, anchor) :=
    match rsplit1 hash url with
    | Some (urlp, anchor) => (urlp, Some anchor)
    | None => (url, None)
    end in
  if contains slash urlp then None
  else
    let nurl :=
      if (0 <? length (strip urlp))%nat
      then format_int book_id ++ underscore ++ urlp
      else [] in
    match anchor with
    | Some a => Some (join [hash] [nurl; a])
    | None => Some nurl
    end.

(** The loop over [soup.findAll('a')]: the new value of one [href]. *)
Definition rewrite_href (book_id : Z) (href : unicode) : unicode :=
  match replacablement_link book_id href with
  | Some new_link => new_link
  | None => href
  end.

(** ** BeautifulSoup trees *)

Module Bs4.

(** A page element.  Comments, doctypes and the other subclasses of
    [NavigableString] that [get_text] leaves out behave in this code as
    a [NavigableString] with no characters. *)
#[warnings="-register-all"]
Inductive node :=
| NavigableString (s : unicode)
| Tag (name : unicode) (attrs : gmap unicode unicode) (contents : list node).

(** [isinstance(e, bs4.NavigableString)] *)
Definition is_NavigableString (e : node) : bool :=
  match e with
  | NavigableString _ => true
  | Tag _ _ _ => false
  end.

(** [e.text]: the strings below [e], joined. *)
Fixpoint get_text (e : node) : unicode :=
  match e with
  | NavigableString s => s
  | Tag _ _ cs =>
      (fix all_strings (cs : list node) : unicode :=
         match cs with
         | [] => []
         | c :: cs' => get_text c ++ all_strings cs'
         end) cs
  end.

(** The text of a tag, given its [contents]. *)
Fixpoint text_of (contents : list node) : unicode :=
  match contents with
  | [] => []
  | c :: cs => get_text c ++ text_of cs
  end.

(** [tag.descendants], in document order. *)
Fixpoint descendants (e : node) : list node :=
  match e with
  | NavigableString _ => []
  | Tag _ _ cs =>
      (fix below (cs : list node) : list node :=
         match cs with
         | [] => []
         | c :: cs' => c :: descendants c ++ below cs'
         end) cs
  end.

Definition named (name : unicode) (e : node) : bool :=
  match e with
  | NavigableString _ => false
  | Tag nm _ _ => bool_decide (nm = name)
  end.

(** [soup.findAll(name)] on the document [Tag root _ contents]. *)
Definition findAll (name : unicode) (soup : node) : list node :=
  filter (fun e => named name e = true) (descendants soup).

(** [soup.find(name)] *)
Definition find (name : unicode) (soup : node) : option node :=
  head (findAll name soup).

(** One pass of [for child in tag.children: ...] whose body may call
    [child.decompose()].  [children] is [iter(tag.contents)]: the
    iterator holds an index [i] into the list, [decompose] deletes the
    child from that list, and the elements behind it move one place
    down while the index still goes one up.  [body st child] is one
    run of the loop body: the new loop variables and whether the child
    was decomposed.  The result is the [contents] at [StopIteration];
    no pass takes more steps than the list is long. *)
Fixpoint for_children {St : Type} (body : St -> node -> St * bool)
    (fuel : nat) (contents : list node) (i : nat) (st : St) : list node * St :=
  match fuel with
  | O => (contents, st)
  | S fuel' =>
      match contents !! i with
      | None => (contents, st)
      | Some child =>
          let '(st', decomposed) := body st child in
          let contents' := if decomposed then delete i contents else contents in
          for_children body fuel' contents' (S i) st'
      end
  end.

End Bs4.

Import Bs4.

(** ** The boilerplate stripper of [update_html_for_static] *)

Definition patterns : list (unicode * unicode) :=
  [ (u "*** START OF THE PROJECT GUTENBERG EBOOK",
     u "*** END OF THE PROJECT GUTENBERG EBOOK");
    (u "***START OF THE PROJECT GUTENBERG EBOOK",
     u "***END OF THE PROJECT GUTENBERG EBOOK");
    (u "<><><><><><><><><><><><><><><><><><><><><><><><><><><><><><><><><><>",
     u "<><><><><><><><><><><><><><><><><><><><><><><><><><><><><><><><><><>");
    (u "*** START OF THIS PROJECT GUTENBERG EBOOK",
     u "*** START: FULL LICENSE ***");
    (u "*END THE SMALL PRINT! FOR PUBLIC DOMAIN ETEXT",
     u "——————————————————————————-");
    (u "*** START OF THIS PROJECT GUTENBERG EBOOK",
     u "*** END OF THIS PROJECT GUTENBERG EBOOK");
    (u "***START OF THE PROJECT GUTENBERG",
     u "***END OF THE PROJECT GUTENBERG EBOOK");
    (u "COPYRIGHT PROTECTED ETEXTS*END*",
     u "===========================================================");
    (u "Nous remercions la Bibliothèque Nationale de France qui a mis à",
     u "The Project Gutenberg Etext of");
    (u "Nous remercions la Bibliothèque Nationale de France qui a mis à",
     u "End of The Project Gutenberg EBook");
    (u "=========================================================================",
     u "——————————————————————————-");
    (u "Project Gutenberg Etext", u "End of Project Gutenberg Etext");
    (u "Text encoding is iso-8859-1", u "Fin de Project Gutenberg Etext");
    (u "—————————————————-", u "Encode an ISO 8859/1 Etext into LaTeX or HTML") ].

(** [sum([1 for e in body.children
          if not isinstance(e, bs4.NavigableString)]) == 1] *)
Definition is_encapsulated_in_div (contents : list node) : bool :=
  (sum_list (flat_map (fun e => if is_NavigableString e then [] else [1%nat]) contents)
   =? 1)%nat.

(** [marker in getattr(child, 'text', '')] *)
Definition child_has (marker : unicode) (child : node) : bool :=
  contains marker (get_text child).

(** The body of the loop taken when both markers are in [body.text]
    (lines 291-300); the loop variable is [remove]. *)
Definition both_body (start_of_text end_of_text : unicode)
    (remove : bool) (child : node) : bool * bool :=
  if is_NavigableString child then (remove, false)
  else
    let remove := if child_has end_of_text child then true else remove in
    if child_has start_of_text child then (false, true)
    else (remove, remove).

(** The body of the loop taken when only the start marker is in
    [body.text] (lines 306-313). *)
Definition start_body (start_of_text : unicode)
    (remove : bool) (child : node) : bool * bool :=
  if is_NavigableString child then (remove, false)
  else if child_has start_of_text child then (false, true)
  else (remove, remove).

(** The body of the loop taken when only the end marker is in
    [body.text] (lines 318-324). *)
Definition end_body (end_of_text : unicode)
    (remove : bool) (child : node) : bool * bool :=
  if is_NavigableString child then (remove, false)
  else
    let remove := if child_has end_of_text child then true else remove in
    (remove, remove).

(** A [for child in body.children] loop, run to its end. *)
Definition run_loop (body : bool -> node -> bool * bool)
    (remove : bool) (contents : list node) : list node :=
  fst (for_children body (length contents) contents 0 remove).

(** The removal applied for a pair of which a marker is in [body.text]:
    the three branches of lines 289-325, each of which ends in [break]. *)
Definition remove_boilerplate (start_of_text end_of_text : unicode)
    (contents : list node) : list node :=
  let text := text_of contents in
  if contains start_of_text text && contains end_of_text text then
    run_loop (both_body start_of_text end_of_text) true contents
  else if contains start_of_text text then
    run_loop (start_body start_of_text) true contents
  else if contains end_of_text text then
    run_loop (end_body end_of_text) false contents
  else contents.

(** [for start_of_text, end_of_text in patterns: ...] over the contents
    of the body (lines 285-325). *)
Fixpoint scan_patterns (table : list (unicode * unicode))
    (contents : list node) : list node :=
  match table with
  | [] => contents
  | (start_of_text, end_of_text) :: table' =>
      let text := text_of contents in
      if negb (contains start_of_text text) && negb (contains end_of_text text)
      then scan_patterns table' contents
      else remove_boilerplate start_of_text end_of_text contents
  end.

(** Lines 273-325 on the contents of an existing body. *)
Definition strip_with (table : list (unicode * unicode))
    (contents : list node) : list node :=
  if negb (is_encapsulated_in_div contents) then scan_patterns table contents
  else contents.

Definition strip_body (contents : list node) : list node :=
  strip_with patterns contents.

(** ** The rest of [update_html_for_static] *)

Record book := Book {
  book_id : Z;
  book_title : unicode;
  book_downloads : N;
}.

(** [s.replace(old, new)] for a non-empty [old]; [skip] characters of a
    match just replaced are still to be passed over. *)
Fixpoint replace_from (old new : unicode) (skip : nat) (s : unicode) : unicode :=
  match s with
  | [] => []
  | c :: s' =>
      match skip with
      | S k => replace_from old new k s'
      | O =>
          if startswith s old
          then new ++ replace_from old new (length old - 1) s'
          else c :: replace_from old new 0 s'
      end
  end.

Definition replace (old new s : unicode) : unicode := replace_from old new 0 s.

(** The same change made to every tag the document holds. *)
Fixpoint map_tags (f : unicode -> gmap unicode unicode -> gmap unicode unicode)
    (e : node) : node :=
  match e with
  | NavigableString s => NavigableString s
  | Tag nm attrs cs => Tag nm (f nm attrs) (List.map (map_tags f) cs)
  end.

(** Lines 195-198, for one tag. *)
Definition rewrite_img (b : book) (nm : unicode)
    (attrs : gmap unicode unicode) : gmap unicode unicode :=
  if bool_decide (nm = u "img") then
    match attrs !! u "src" with
    | Some src =>
        <[u "src" := replace (u "images/") (format_int (book_id b) ++ underscore) src]> attrs
    | None => attrs
    end
  else attrs.

(** Lines 223-227, for one tag. *)
Definition rewrite_a (b : book) (nm : unicode)
    (attrs : gmap unicode unicode) : gmap unicode unicode :=
  if bool_decide (nm = u "a") then
    match replacablement_link (book_id b) (default [] (attrs !! u "href")) with
    | Some new_link => <[u "href" := new_link]> attrs
    | None => attrs
    end
  else attrs.

(** The first tag called [name], in document order, with [f] applied to
    its contents; [None] when [soup.find(name)] is [None]. *)
Fixpoint alter_first (name : unicode) (f : list node -> list node)
    (e : node) : option node :=
  match e with
  | NavigableString _ => None
  | Tag nm attrs cs =>
      if bool_decide (nm = name) then Some (Tag nm attrs (f cs))
      else
        option_map (Tag nm attrs)
          ((fix below (cs : list node) : option (list node) :=
              match cs with
              | [] => None
              | c :: cs' =>
                  match alter_first name f c with
                  | Some c' => Some (c' :: cs')
                  | None => option_map (cons c) (below cs')
                  end
              end) cs)
  end.

(** [update_html_for_static] between the parse and the final
    [soup.encode()].  [None] is an exception: [soup.title] is [None] at
    line 231, [body] is [None] at line 286, or the infobox cannot be
    made.  [render_infobox] is lines 329-331, the [div] of the rendered
    [book_infobox.html]. *)
Definition update_soup_for_static (render_infobox : book -> option node) (b : book)
    (epub : bool) (soup : node) : option node :=
  let soup := if epub then soup else map_tags (rewrite_img b) soup in
  let soup := if epub then soup else map_tags (rewrite_a b) soup in
  soup ← (if epub then Some soup
          else alter_first (u "title") (fun _ => [NavigableString (book_title b)]) soup);
  soup ← alter_first (u "body") strip_body soup;
  if epub then Some soup
  else
    infobox ← render_infobox b;
    alter_first (u "body") (cons infobox) soup.

(** ** [export_book_to]: the article page *)

Section Article.

(** [BeautifulSoup(html_content, XML_PARSER)], [soup.encode()] with the
    charset line of 335-342, and the infobox template; each gives [None]
    when it raises. *)
Variable parse : list N -> option node.
Variable encode : bool -> node -> option (list N).
Variable render_infobox : book -> option node.

Definition update_html_for_static (b : book) (html_content : list N)
    (epub : bool) : option (list N) :=
  soup ← parse html_content;
  soup ← update_soup_for_static render_infobox b epub soup;
  encode epub soup.

(** [book.title.strip().replace('/', '-')[:230]] *)
Definition book_name_for_fs (b : book) : unicode :=
  take 230 (replace slash (u "-") (strip (book_title b))).

Definition article_name_for (b : book) (cover : bool) : unicode :=
  book_name_for_fs b ++ (if cover then u "_cover" else []) ++ u "."
    ++ format_int (book_id b) ++ u ".html".

Definition fname_for (b : book) (format : unicode) : unicode :=
  format_int (book_id b) ++ u "." ++ format.

(** [html_content_for]: a folder is the map from its file names to
    their bytes. *)
Definition html_content_for (b : book)
    (download_cache : gmap unicode (list N)) : option (list N) :=
  download_cache !! fname_for b (u "html").

(** Lines 375-386: the new [static_folder]. *)
Definition export_article (b : book)
    (download_cache static_folder : gmap unicode (list N))
    : gmap unicode (list N) :=
  match html_content_for b download_cache with
  | Some ((_ :: _) as html) =>
      let new_html :=
        match update_html_for_static b html false with
        | Some new_html => new_html
        | None => html
        end in
      <[article_name_for b false := new_html]> static_folder
  | _ => static_folder
  end.

End Article.

(** ** [export_all_books]: the popularity stars *)

Definition NB_POPULARITY_STARS : Z := 5.

(** [l[i] = x] on a Python list: an index below zero counts from the
    end, one out of range raises [IndexError]. *)
Definition setitem {A : Type} (l : list A) (i : Z) (x : A) : option (list A) :=
  let n := Z.of_nat (length l) in
  if ((0 <=? i) && (i <? n))%Z then Some (<[Z.to_nat i := x]> l)
  else if ((- n <=? i) && (i <? 0))%Z then Some (<[Z.to_nat (n + i) := x]> l)
  else None.

(** The test [ibook > float(NB_POPULARITY_STARS-stars+1)
    /NB_POPULARITY_STARS*popbooks.count()] in exact arithmetic. *)
Definition past_band_exact (stars : Z) (count ibook : nat) : bool :=
  ((NB_POPULARITY_STARS - stars + 1) * Z.of_nat count
   <? NB_POPULARITY_STARS * Z.of_nat ibook)%Z.

Section Popularity.

(** The test of line 137 is a comparison with a product of floats; the
    loop is modelled for any outcome [past_band stars count ibook] of
    it. *)
Variable past_band : Z -> nat -> nat -> bool.

(** One run of the loop body of lines 137-141 on the loop variables
    [stars_limits], [stars] and [nb_downloads]; [popbooks] holds the
    download counts in the order of the query. *)
Definition popularity_step (popbooks : list N) (ibook : nat)
    (st : list N * Z * N) : option (list N * Z * N) :=
  let '(stars_limits, stars, nb_downloads) := st in
  downloads ← popbooks !! ibook;
  if past_band stars (length popbooks) ibook && (downloads <? nb_downloads) then
    stars_limits ← setitem stars_limits (stars - 1)%Z nb_downloads;
    Some (stars_limits, (stars - 1)%Z, downloads)
  else Some (stars_limits, stars, downloads).

(** [for ibook in range(...)] *)
Fixpoint popularity_loop (popbooks : list N) (range : list nat)
    (st : list N * Z * N) : option (list N * Z * N) :=
  match range with
  | [] => Some st
  | ibook :: range' =>
      st ← popularity_step popbooks ibook st;
      popularity_loop popbooks range' st
  end.

(** Lines 133-141: the thresholds, or [None] for the [IndexError] of
    [popbooks[0]] on an empty collection or of line 139. *)
Definition compute_stars_limits (popbooks : list N) : option (list N) :=
  nb_downloads ← popbooks !! 0%nat;
  st ← popularity_loop popbooks (seq 0 (length popbooks))
         (replicate (Z.to_nat NB_POPULARITY_STARS) 0, NB_POPULARITY_STARS, nb_downloads);
  Some st.1.1.

End Popularity.

(** Lines 146-148: [sum([int(book.downloads >= stars_limits[i])
    for i in range(NB_POPULARITY_STARS)])]. *)
Definition popularity (stars_limits : list N) (downloads : N) : option nat :=
  sum_list <$>
    mapM (fun i => limit ← stars_limits !! i;
                   Some (if limit <=? downloads then 1%nat else 0%nat))
         (seq 0 (Z.to_nat NB_POPULARITY_STARS)).

(** The stars of a whole collection, in its order. *)
Definition popularities (past_band : Z -> nat -> nat -> bool)
    (popbooks : list N) : option (list nat) :=
  stars_limits ← compute_stars_limits past_band popbooks;
  mapM (popularity stars_limits) popbooks.

(** ** BeautifulSoup objects with their links

    The loop over the navigation file reads [parent] and [next_sibling]
    of objects it has decomposed, so there the tree is a store of
    objects with the links BeautifulSoup keeps between them. *)

Module Dom.

(** The attributes of one object; a tag has a [name], a string has its
    characters.  After [decompose] the object has lost them all, and
    reading one gives [None] (through [Tag.__getattr__], which looks
    for a child tag of that name and finds none). *)
Record element := Element {
  is_tag : bool;
  name : option unicode;
  attrs : gmap unicode unicode;
  chars : unicode;
  parent : option nat;
  next_sibling : option nat;
  previous_sibling : option nat;
  contents : list nat;
}.

Definition cleared (e : element) : element :=
  Element (is_tag e) None ∅ [] None None None [].

Definition set_contents (cs : list nat) (e : element) : element :=
  Element (is_tag e) (name e) (attrs e) (chars e) (parent e)
    (next_sibling e) (previous_sibling e) cs.

Definition set_parent (p : option nat) (e : element) : element :=
  Element (is_tag e) (name e) (attrs e) (chars e) p
    (next_sibling e) (previous_sibling e) (contents e).

Definition set_next_sibling (n : option nat) (e : element) : element :=
  Element (is_tag e) (name e) (attrs e) (chars e) (parent e)
    n (previous_sibling e) (contents e).

Definition set_previous_sibling (p : option nat) (e : element) : element :=
  Element (is_tag e) (name e) (attrs e) (chars e) (parent e)
    (next_sibling e) p (contents e).

(** [del l[l.index(x)]] *)
Fixpoint remove_first (x : nat) (l : list nat) : list nat :=
  match l with
  | [] => []
  | y :: l' => if bool_decide (y = x) then l' else y :: remove_first x l'
  end.

(** [x.extract()]: the object leaves the contents of its parent, its
    two neighbours are linked to each other, and its own [parent],
    [previous_sibling] and [next_sibling] become [None]. *)
Definition extract (x : nat) (h : gmap nat element) : gmap nat element :=
  match h !! x with
  | None => h
  | Some e =>
      let h :=
        match parent e with
        | Some p => alter (fun pe => set_contents (remove_first x (contents pe)) pe) p h
        | None => h
        end in
      let h :=
        match previous_sibling e with
        | Some q => alter (set_next_sibling (next_sibling e)) q h
        | None => h
        end in
      let h :=
        match next_sibling e with
        | Some q => alter (set_previous_sibling (previous_sibling e)) q h
        | None => h
        end in
      alter (fun e => set_previous_sibling None (set_next_sibling None (set_parent None e))) x h
  end.

(** The objects below [x], in document order. *)
Fixpoint descendants (fuel : nat) (h : gmap nat element) (x : nat) : list nat :=
  match fuel with
  | O => []
  | S fuel' =>
      match h !! x with
      | None => []
      | Some e => flat_map (fun c => c :: descendants fuel' h c) (contents e)
      end
  end.

(** [x.decompose()]: [extract], then [x] and everything below it is
    emptied ([i.__dict__.clear(); i.contents = []]). *)
Definition decompose (x : nat) (h : gmap nat element) : gmap nat element :=
  let h' := extract x h in
  foldr (alter cleared) h' (x :: descendants (size h) h' x).

(** [x.text] *)
Definition get_text (h : gmap nat element) (x : nat) : unicode :=
  flat_map (fun i => match h !! i with
                     | Some e => if is_tag e then [] else chars e
                     | None => []
                     end)
           (x :: descendants (size h) h x).

(** [soup.findAll(name)], a list made before the loop starts. *)
Definition findAll (nm : unicode) (h : gmap nat element) (soup : nat) : list nat :=
  filter (fun i => (h !! i) ≫= name = Some nm) (descendants (size h) h soup).

(** [for s in s.next_siblings: s.decompose()].  [next_siblings] is a
    generator: it reads [next_sibling] of the object it gave out last
    when the loop asks for the next one, after the loop body ran. *)
Fixpoint decompose_next_siblings (fuel : nat) (i : option nat)
    (h : gmap nat element) : gmap nat element :=
  match fuel, i with
  | S fuel', Some s =>
      let h' := decompose s h in
      decompose_next_siblings fuel' (h' !! s ≫= next_sibling) h'
  | _, _ => h
  end.

(** Lines 471-477.  [None] is the [AttributeError] of reading
    [.parent] or calling [.decompose] on [None]. *)
Fixpoint ncx_loop (pattern : unicode) (tags : list nat)
    (h : gmap nat element) : option (gmap nat element) :=
  match tags with
  | [] => Some h
  | tag :: tags' =>
      if contains pattern (get_text h tag) then
        p ← h !! tag ≫= parent;
        s ← h !! p ≫= parent;
        let h := decompose s h in
        let h := decompose_next_siblings (size h) (h !! s ≫= next_sibling) h in
        ncx_loop pattern tags' h
      else ncx_loop pattern tags' h
  end.

(** *** Trees as stores and back *)

(** [previous_sibling] and [next_sibling] along the contents of a tag. *)
Fixpoint link_siblings (prev : option nat) (ids : list nat)
    (h : gmap nat element) : gmap nat element :=
  match ids with
  | [] => h
  | i :: ids' =>
      link_siblings (Some i) ids'
        (alter (fun e => set_previous_sibling prev (set_next_sibling (head ids') e)) i h)
  end.

(** The objects of [e], numbered from [n] in document order. *)
Fixpoint load (e : node) (par : option nat) (n : nat)
    (h : gmap nat element) : nat * gmap nat element :=
  match e with
  | NavigableString s =>
      (S n, <[n := Element false None ∅ s par None None []]> h)
  | Tag nm at_ cs =>
      let '(ids, (n', h')) :=
        (fix load_all (cs : list node) (m : nat) (g : gmap nat element)
           : list nat * (nat * gmap nat element) :=
           match cs with
           | [] => ([], (m, g))
           | c :: cs' =>
               let '(m1, g1) := load c (Some n) m g in
               let '(ids, st) := load_all cs' m1 g1 in
               (m :: ids, st)
           end) cs (S n) h in
      (n', link_siblings None ids (<[n := Element true (Some nm) at_ [] par None None ids]> h'))
  end.

(** The tree below [x]. *)
Fixpoint dump (fuel : nat) (h : gmap nat element) (x : nat) : option node :=
  match fuel with
  | O => None
  | S fuel' =>
      e ← h !! x;
      if is_tag e then
        nm ← name e;
        cs ← mapM (dump fuel' h) (contents e);
        Some (Tag nm (attrs e) cs)
      else Some (NavigableString (chars e))
  end.

End Dom.

Definition full_license : unicode := u "*** START: FULL LICENSE ***".

(** Lines 470-477 on the parsed navigation file. *)
Definition patch_ncx (soup : node) : option node :=
  let '(n, h) := Dom.load soup None 0 ∅ in
  h ← Dom.ncx_loop full_license (Dom.findAll (u "text") h 0) h;
  Dom.dump (size h) h 0.

(** ** [optimize_epub] *)

(** [path(fname).ext], which is [os.path.splitext(fname)[1]]: from the
    last dot of the last path component, unless only dots come before
    it there. *)
Definition ext (fname : unicode) : unicode :=
  let base := match rsplit1 47 fname with
              | Some (_, base) => base
              | None => fname
              end in
  match rsplit1 46 base with
  | Some (stem, e) => if forallb (N.eqb 46) stem then [] else 46 :: e
  | None => []
  end.

(** [zipped_files.remove(fname)]: the first equal element goes. *)
Fixpoint list_remove (fname : unicode) (l : list unicode) : list unicode :=
  match l with
  | [] => []
  | f :: l' => if bool_decide (f = fname) then l' else f :: list_remove fname l'
  end.

(** Lines 494-496 on the parsed manifest: every tag of
    [soup.findAll()] whose [href] is [cover.jpg] is decomposed.  A tag
    below a decomposed one comes later in that list, emptied, and
    [getattr(elem, 'attrs', {})] is then [None]: [None] here. *)
Definition is_cover_ref (e : node) : bool :=
  match e with
  | NavigableString _ => false
  | Tag _ attrs _ => bool_decide (attrs !! u "href" = Some (u "cover.jpg"))
  end.

Fixpoint remove_cover_refs (e : node) : option node :=
  match e with
  | NavigableString s => Some (NavigableString s)
  | Tag nm attrs cs =>
      cs' ← (fix below (cs : list node) : option (list node) :=
               match cs with
               | [] => Some []
               | c :: cs' =>
                   if is_cover_ref c then
                     if forallb is_NavigableString (Bs4.descendants c) then below cs'
                     else None
                   else
                     c' ← remove_cover_refs c;
                     r ← below cs';
                     Some (c' :: r)
               end) cs;
      Some (Tag nm attrs cs')
  end.

Module Epub.

(** What a run does to the world outside the temporary folder: the
    commands given to [exec_cmd], and the files written inside. *)
Inductive event :=
| Gifsicle (fname : unicode)
| Pngquant (fname : unicode)
| Advdef (fname : unicode)
| Jpegoptim (fname : unicode)
| Written (fname : unicode)
| Zip_stored (dst : unicode) (files : list unicode)
| Zip_deflated (dst : unicode) (files : list unicode).

(** The entry an event of the per-entry loop is about. *)
Definition event_entry (ev : event) : option unicode :=
  match ev with
  | Gifsicle f | Pngquant f | Advdef f | Jpegoptim f | Written f => Some f
  | Zip_stored _ _ | Zip_deflated _ _ => None
  end.

(** The folders under [TMP_FOLDER], each with its files, and the
    events so far. *)
Record world := World {
  tmp_folders : gmap nat (gmap unicode (list N));
  trace : list event;
}.

Inductive outcome (A : Type) :=
| Returned (a : A)
| Raised.
Arguments Returned {A} a.
Arguments Raised {A}.

(** A statement: it returns or raises, and leaves a world either way. *)
Definition M (A : Type) : Type := world -> outcome A * world.

#[export] Instance M_ret : MRet M := fun A a w => (Returned a, w).
#[export] Instance M_bind : MBind M := fun A B f m w =>
  match m w with
  | (Returned a, w') => f a w'
  | (Raised, w') => (Raised, w')
  end.

Definition raise {A : Type} : M A := fun w => (Raised, w).

Definition lift {A : Type} (o : option A) : M A :=
  match o with
  | Some a => mret a
  | None => raise
  end.

Definition emit (ev : event) : M unit :=
  fun w => (Returned (), World (tmp_folders w) (trace w ++ [ev])).

(** Modelled from the spec: [exec_cmd] is defined in [gutenberg.utils],
    outside [export.py]; by section 5 a failing call is logged and
    the run goes on, so a call is the event of its command and never
    raises. *)
Definition exec_cmd (cmd : event) : M unit := emit cmd.

(** [tempfile.mkdtemp(dir=TMP_FOLDER)] *)
Definition mkdtemp : M nat := fun w =>
  let tmpd := fresh (dom (tmp_folders w)) in
  (Returned tmpd, World (<[tmpd := ∅]> (tmp_folders w)) (trace w)).

(** [path(tmpd).rmtree_p()] *)
Definition rmtree_p (tmpd : nat) : M unit := fun w =>
  (Returned (), World (delete tmpd (tmp_folders w)) (trace w)).

(** [zf.extractall(tmpd)]; of two entries of one name the later one
    stays. *)
Definition extractall (tmpd : nat) (zf : list (unicode * list N)) : M unit := fun w =>
  (Returned (),
   World (<[tmpd := list_to_map (reverse zf)]> (tmp_folders w)) (trace w)).

(** [open(fnp, 'r').read()] *)
Definition read (tmpd : nat) (fname : unicode) : M (list N) := fun w =>
  lift (tmp_folders w !! tmpd ≫= fun files => files !! fname) w.

(** [os.path.exists(fnp)] *)
Definition exists_ (tmpd : nat) (fname : unicode) : M bool := fun w =>
  (Returned (bool_decide (is_Some (tmp_folders w !! tmpd ≫= fun files => files !! fname))), w).

(** [open(fnp, 'w').write(data)] *)
Definition write (tmpd : nat) (fname : unicode) (data : list N) : M unit := fun w =>
  (Returned (),
   World (alter (insert fname data) tmpd (tmp_folders w)) (trace w ++ [Written fname])).

(** [path(fnp).unlink_p()] *)
Definition unlink_p (tmpd : nat) (fname : unicode) : M unit := fun w =>
  (Returned (), World (alter (delete fname) tmpd (tmp_folders w)) (trace w)).

Definition optimize_gif (fname : unicode) : M unit := exec_cmd (Gifsicle fname).

Definition optimize_png (fname : unicode) : M unit :=
  exec_cmd (Pngquant fname);; exec_cmd (Advdef fname).

Definition optimize_jpeg (fname : unicode) : M unit := exec_cmd (Jpegoptim fname).

Definition optimize_image (fname : unicode) : M unit :=
  if bool_decide (ext fname = u ".png") then optimize_png fname
  else if bool_decide (ext fname ∈ [u ".jpg"; u ".jpeg"]) then optimize_jpeg fname
  else if bool_decide (ext fname = u ".gif") then optimize_gif fname
  else mret ().

(** The names given to the two [zip] commands of lines 502-506. *)
Definition repacked (zipped_files : list unicode) : list unicode :=
  u "mimetype" :: filter (fun f => f ≠ u "mimetype") zipped_files.

Section Patcher.

Variable parse : list N -> option node.
Variable encode : bool -> node -> option (list N).
Variable render_infobox : book -> option node.
(** [BeautifulSoup(data, ["lxml", "xml"])] and [soup.encode()] *)
Variable parse_xml : list N -> option node.
Variable encode_xml : node -> option (list N).
(** [is_bad_cover] of [gutenberg.utils], on the entry extracted. *)
Variable is_bad_cover : unicode -> bool.
Variable b : book.

(** The body of the loop of line 445 for the entry [fname]: the new
    [zipped_files] and [remove_cover]. *)
Definition entry_body (tmpd : nat) (fname : unicode)
    (zipped_files : list unicode) (remove_cover : bool) : M (list unicode * bool) :=
  '(zipped_files, remove_cover) ←
    (if bool_decide (ext fname ∈ [u ".png"; u ".jpeg"; u ".jpg"; u ".gif"]) then
       if endswith fname (u "cover.jpg") && is_bad_cover fname
       then mret (list_remove fname zipped_files, true)
       else optimize_image fname;; mret (zipped_files, remove_cover)
     else mret (zipped_files, remove_cover));
  (if bool_decide (ext fname ∈ [u ".htm"; u ".html"]) then
     data ← read tmpd fname;
     html ← lift (update_html_for_static parse encode render_infobox b data true);
     write tmpd fname html
   else mret ());;
  (if bool_decide (ext fname = u ".ncx") then
     ncx ← read tmpd fname;
     soup ← lift (parse_xml ncx ≫= patch_ncx);
     data ← lift (encode_xml soup);
     write tmpd fname data
   else mret ());;
  mret (zipped_files, remove_cover).

(** [for fname in zipped_files: ...]: a list iterator at index [i]
    over a list the body may shorten. *)
Fixpoint for_zipped_files (fuel : nat) (tmpd : nat)
    (zipped_files : list unicode) (i : nat) (remove_cover : bool)
    : M (list unicode * bool) :=
  match fuel with
  | O => mret (zipped_files, remove_cover)
  | S fuel' =>
      match zipped_files !! i with
      | None => mret (zipped_files, remove_cover)
      | Some fname =>
          '(zipped_files, remove_cover) ←
            entry_body tmpd fname zipped_files remove_cover;
          for_zipped_files fuel' tmpd zipped_files (S i) remove_cover
      end
  end.

(** Lines 483-499. *)
Definition drop_cover (tmpd : nat) : M unit :=
  unlink_p tmpd (format_int (book_id b) ++ u "/cover.jpg");;
  let opff := format_int (book_id b) ++ u "/content.opf" in
  there ← exists_ tmpd opff;
  if there : bool then
    data ← read tmpd opff;
    soup ← lift (parse_xml data ≫= remove_cover_refs);
    data ← lift (encode_xml soup);
    write tmpd opff data
  else mret ().

(** [optimize_epub(src, dst)]; [src] is the archive read, [None]
    when [zipfile.ZipFile] cannot open it.  The result is the
    temporary folder the run made. *)
Definition optimize_epub (src : option (list (unicode * list N)))
    (dst : unicode) : M nat :=
  tmpd ← mkdtemp;
  zf ← lift src;
  let zipped_files := zf.*1 in
  extractall tmpd zf;;
  '(zipped_files, remove_cover) ←
    for_zipped_files (length zipped_files) tmpd zipped_files 0 false;
  (if remove_cover : bool then drop_cover tmpd else mret ());;
  exec_cmd (Zip_stored dst [u "mimetype"]);;
  exec_cmd (Zip_deflated dst (filter (fun f => f ≠ u "mimetype") zipped_files));;
  rmtree_p tmpd;;
  mret tmpd.

End Patcher.

End Epub.


(** ** Notions used to state the properties *)

(** An [href] with the part before an optional [#anchor]. *)
Definition href_of (path : unicode) (anchor : option unicode) : unicode :=
  match anchor with
  | Some a => path ++ hash :: a
  | None => path
  end.

(** The top-level children that are tags. *)
Definition tags_of (contents : list node) : list node :=
  filter (fun e => is_NavigableString e = false) contents.

(** No tag among the children is directly followed by another tag:
    strings (the line breaks of the page) lie between them. *)
Fixpoint separated (contents : list node) : bool :=
  match contents with
  | c :: ((d :: _) as contents') =>
      (is_NavigableString c || is_NavigableString d) && separated contents'
  | _ => true
  end.

(** A loop over the children as an iterator over a list nobody
    changes would run it: every child is visited. *)
Fixpoint walk {St : Type} (body : St -> node -> St * bool)
    (contents : list node) (st : St) : list node * St :=
  match contents with
  | [] => ([], st)
  | c :: contents' =>
      let '(st', decomposed) := body st c in
      let '(kept, st'') := walk body contents' st' in
      (if decomposed then kept else c :: kept, st'')
  end.

(** The loop of [for_children] by recursion on the children the
    iterator has not reached: the child behind a decomposed one is
    passed over and stays. *)
Fixpoint sweep {St : Type} (body : St -> node -> St * bool)
    (rest : list node) (st : St) : list node * St :=
  match rest with
  | [] => ([], st)
  | c :: rest' =>
      let '(st', decomposed) := body st c in
      if decomposed then
        match rest' with
        | [] => ([], st')
        | d :: rest'' =>
            let '(kept, st'') := sweep body rest'' st' in (d :: kept, st'')
        end
      else
        let '(kept, st'') := sweep body rest' st' in (c :: kept, st'')
  end.

(** A marker of the pair is in the text of the body. *)
Definition present (text : unicode) (pair : unicode * unicode) : bool :=
  contains pair.1 text || contains pair.2 text.

(** The tag among [before] nearest to its end whose text holds one of
    the two markers. *)
Definition nearest_marker (s e : unicode) (before : list node) : option node :=
  List.find (fun c => negb (is_NavigableString c) && (child_has s c || child_has e c))
    (rev before).

(** The child [c], with the children [before] it: a string, or a tag
    that holds neither marker and comes after a tag holding [s] with
    no tag holding a marker in between. *)
Definition kept_between (s e : unicode) (before : list node) (c : node) : bool :=
  is_NavigableString c
  || (negb (child_has s c) && negb (child_has e c)
      && match nearest_marker s e before with
         | Some m => child_has s m
         | None => false
         end).

(** The children that [keep] holds of, each judged with the children
    before it. *)
Fixpoint keep_where (keep : list node -> node -> bool)
    (before contents : list node) : list node :=
  match contents with
  | [] => []
  | c :: contents' =>
      (if keep before c then [c] else []) ++ keep_where keep (before ++ [c]) contents'
  end.

(** The nearest tag with a marker before the end of [before] holds the
    start marker: the loop is past a start and not past an end. *)
Definition after_start (s e : unicode) (before : list node) : bool :=
  match nearest_marker s e before with
  | Some m => child_has s m
  | None => false
  end.

(** A tag among [before] holds the marker. *)
Definition after_marker (marker : unicode) (before : list node) : bool :=
  existsb (fun c => negb (is_NavigableString c) && child_has marker c) before.

(** With the start marker alone: a string, or a tag without the marker
    behind a tag that holds it. *)
Definition kept_after_start (s : unicode) (before : list node) (c : node) : bool :=
  is_NavigableString c || (negb (child_has s c) && after_marker s before).

(** With the end marker alone: a string, or a tag before every tag that
    holds the marker. *)
Definition kept_before_end (e : unicode) (before : list node) (c : node) : bool :=
  is_NavigableString c || negb (child_has e c || after_marker e before).

(** The top-level children that are strings. *)
Definition strings_of (contents : list node) : list node :=
  filter (fun c => is_NavigableString c = true) contents.

(** ** Pages used as examples *)

Definition para (s : string) : node := Tag (u "p") ∅ [NavigableString (u s)].

Definition nl : node := NavigableString [10].

Definition rule : unicode :=
  u "<><><><><><><><><><><><><><><><><><><><><><><><><><><><><><><><><><>".

(** A page with the markers of the first pair of the table. *)
Definition page_markers : list node :=
  [ para "header"; nl;
    para "*** START OF THE PROJECT GUTENBERG EBOOK EMMA ***"; nl;
    para "chapter"; nl;
    para "*** END OF THE PROJECT GUTENBERG EBOOK EMMA ***"; nl;
    para "license" ].

(** The same page inside one [div]. *)
Definition page_wrapped : list node :=
  [ nl; Tag (u "div") ∅ page_markers; nl ].

(** A page of which the header and the footer are set off by the same
    line, the third pair of the table. *)
Definition page_same_marker : list node :=
  [ para "header"; nl; Tag (u "p") ∅ [NavigableString rule]; nl;
    para "text1"; nl; Tag (u "p") ∅ [NavigableString rule]; nl;
    para "footer" ].

(** A page with the markers of the sixth pair of the table, the start
    marker of which is the one of the fourth pair too. *)
Definition page_this : list node :=
  [ para "header"; nl;
    para "*** START OF THIS PROJECT GUTENBERG EBOOK EMMA ***"; nl;
    para "chapter"; nl;
    para "*** END OF THIS PROJECT GUTENBERG EBOOK EMMA ***"; nl;
    para "license" ].

(** The page of [page_markers] without the line breaks between the
    tags. *)
Definition page_crowded : list node :=
  [ para "header"; para "notes";
    para "*** START OF THE PROJECT GUTENBERG EBOOK EMMA ***";
    para "chapter";
    para "*** END OF THE PROJECT GUTENBERG EBOOK EMMA ***";
    para "license" ].

(** The thresholds a download count meets or exceeds. *)
Definition thresholds_met (stars_limits : list N) (downloads : N) : nat :=
  sum_list ((fun limit => if limit <=? downloads then 1%nat else 0%nat) <$> stars_limits).

Definition tag (nm : string) (contents : list node) : node := Tag (u nm) ∅ contents.

Definition text (s : string) : node := NavigableString (u s).

(** A page without a [title]: line 231 raises on it. *)
Definition page_untitled : node :=
  tag "[document]" [tag "html" [tag "body" [para "chapter"; nl; para "end"]]].

(** A page with a [title] and a [body]. *)
Definition page_titled : node :=
  tag "[document]"
    [tag "html" [tag "head" [tag "title" [text "old"]];
                 tag "body" [para "chapter"; nl; para "end"]]].

(** A page without a [body]: line 286 raises on it. *)
Definition page_bodiless : node :=
  tag "[document]" [tag "html" [tag "head" [tag "title" [text "old"]]]].

(** A navigation file with two chapters, the license and two sections
    of the license. *)
Definition navPoint (label : string) : node :=
  tag "navPoint" [tag "navLabel" [tag "text" [text label]]; tag "content" []].

Definition ncx_license : node :=
  tag "[document]"
    [tag "ncx"
       [tag "docTitle" [tag "text" [text "Emma"]];
        tag "navMap"
          [navPoint "Chapter 1"; navPoint "Chapter 2";
           navPoint "*** START: FULL LICENSE ***";
           navPoint "Section 1"; navPoint "Section 2"]]].

(** A cover the loop of line 445 takes off the list. *)
Definition flagged (is_bad_cover : unicode -> bool) (fname : unicode) : Prop :=
  endswith fname (u "cover.jpg") = true /\ is_bad_cover fname = true.

(** The entries the loop of line 445 has not reached ([rest]), what
    is left of them at its end ([kept]) and the events of the loop:
    an entry is visited and stays, with events about it alone, or it is
    a flagged cover and goes, and then the entry behind it stays
    without a visit. *)
Inductive passes (flagged : unicode -> Prop)
  : list unicode -> list unicode -> list Epub.event -> Prop :=
| passes_nil : passes flagged [] [] []
| passes_visit f rest kept evs_f evs :
    Forall (fun ev => Epub.event_entry ev = Some f) evs_f ->
    passes flagged rest kept evs ->
    passes flagged (f :: rest) (f :: kept) (evs_f ++ evs)
| passes_drop_last f :
    flagged f ->
    passes flagged [f] [] []
| passes_drop f d rest kept evs :
    flagged f ->
    passes flagged rest kept evs ->
    passes flagged (f :: d :: rest) (d :: kept) evs.

(** An archive with a cover, two pages and an image. *)
Definition epub_cover : list (unicode * list N) :=
  [ (u "mimetype", [97]); (u "11/cover.jpg", [255; 216]);
    (u "11/a.html", [60; 97; 62]); (u "11/b.html", [60; 98; 62]);
    (u "11/c.png", [137; 80]) ].

(** An archive with one page. *)
Definition epub_page : list (unicode * list N) :=
  [ (u "mimetype", [97]); (u "11/a.html", [60; 97; 62]) ].

Definition emma : book := Book 11 (u "Emma") 0.

(** What a statement run for the temporary folder [tmpd] may do to the
    world, whether it returns or raises: add events that [about] holds
    of, and change the folder [tmpd], which it does not remove. *)
Definition step_in (tmpd : nat) (about : Epub.event -> Prop)
    (w w' : Epub.world) : Prop :=
  (exists evs, Epub.trace w' = Epub.trace w ++ evs /\ Forall about evs)
  /\ delete tmpd (Epub.tmp_folders w') = delete tmpd (Epub.tmp_folders w)
  /\ (tmpd ∈ dom (Epub.tmp_folders w) -> tmpd ∈ dom (Epub.tmp_folders w')).

Definition respects {A : Type} (R : Epub.world -> Epub.world -> Prop)
    (m : Epub.M A) : Prop :=
  forall w, R w (m w).2.

(** ** More of [export.py] *)

(** [archive_name_for(book, format)] *)
Definition archive_name_for (b : book) (format : unicode) : unicode :=
  book_name_for_fs b ++ u "." ++ format_int (book_id b) ++ u "." ++ format.

(** The list the loop of lines 535-536 runs over: the cached files
    whose name starts with the id of the book and an underscore. *)
Definition companion_files (b : book) (cached_files : list unicode) : list unicode :=
  filter (fun fn => startswith fn (format_int (book_id b) ++ underscore) = true)
    cached_files.

(** A page without markers. *)
Definition page_plain : list node :=
  [ para "chapter"; nl; para "end" ].

(** A page with the end marker of the first pair alone. *)
Definition page_end_only : list node :=
  [ para "chapter"; nl;
    para "*** END OF THE PROJECT GUTENBERG EBOOK EMMA ***"; nl;
    para "license" ].

(** What the loop of lines 136-141 keeps true of its variables on a
    collection in descending order, [d0] being the count of the first
    book: below [stars] the thresholds are still 0, the thresholds
    grow with the stars, those recorded are above [nb_downloads], and
    none is above [d0]. *)
Definition stars_inv (d0 : N) (st : list N * Z * N) : Prop :=
  let '(stars_limits, stars, nb_downloads) := st in
  length stars_limits = 5%nat
  /\ (1 <= stars <= 5)%Z
  /\ (forall i a, stars_limits !! i = Some a -> (Z.of_nat i < stars)%Z -> a = 0)
  /\ (forall i j a b, (i <= j)%nat ->
        stars_limits !! i = Some a -> stars_limits !! j = Some b -> a <= b)
  /\ (forall i a, stars_limits !! i = Some a -> (stars <= Z.of_nat i)%Z ->
        nb_downloads < a)
  /\ (forall i a, stars_limits !! i = Some a -> a <= d0)
  /\ nb_downloads <= d0.

(** * Properties *)

(** ** The link rewriter *)

Lemma rsplit1_absent (sep : N) (s : unicode) :
  sep ∉ s -> rsplit1 sep s = None.
Proof.
  induction s as [|c s IH]; intros Hs; [reflexivity|].
  apply not_elem_of_cons in Hs as [Hc Hs].
  simpl. rewrite (IH Hs).
  destruct (N.eqb_spec c sep); congruence.
Qed.

Lemma rsplit1_last (sep : N) (p a : unicode) :
  sep ∉ a -> rsplit1 sep (p ++ sep :: a) = Some (p, a).
Proof.
  intros Ha. induction p as [|c p IH]; simpl.
  - rewrite (rsplit1_absent _ _ Ha), N.eqb_refl. reflexivity.
  - rewrite IH. reflexivity.
Qed.

Lemma lstrip_nil (s : unicode) :
  lstrip s = [] <-> forallb isspace s = true.
Proof.
  induction s as [|c s IH]; simpl; [tauto|].
  destruct (isspace c) eqn:Hc; simpl; [exact IH|].
  split; discriminate.
Qed.

Lemma lstrip_keeps_nonspace (s : unicode) :
  forallb isspace (lstrip s) = forallb isspace s.
Proof.
  induction s as [|c s IH]; simpl; [reflexivity|].
  destruct (isspace c) eqn:Hc; simpl; [exact IH|].
  rewrite Hc. reflexivity.
Qed.

Lemma forallb_rev (f : N -> bool) (s : unicode) :
  forallb f (rev s) = forallb f s.
Proof.
  induction s as [|c s IH]; simpl; [reflexivity|].
  rewrite forallb_app, IH. simpl. rewrite andb_true_r. apply andb_comm.
Qed.

(** [len(urlp.strip())] is zero exactly when [urlp] has only white
    space. *)
Lemma strip_length (s : unicode) :
  (0 <? length (strip s))%nat = negb (forallb isspace s).
Proof.
  unfold strip. rewrite length_rev.
  destruct (forallb isspace s) eqn:Hs; simpl.
  - assert (lstrip (rev (lstrip s)) = []) as ->; [|reflexivity].
    apply lstrip_nil. rewrite forallb_rev, lstrip_keeps_nonspace. exact Hs.
  - destruct (lstrip (rev (lstrip s))) as [|c r] eqn:Hl; [|reflexivity].
    apply lstrip_nil in Hl.
    rewrite forallb_rev, lstrip_keeps_nonspace in Hl. congruence.
Qed.

Lemma replacablement_link_cases (book_id : Z) (path : unicode) (anchor : option unicode) :
  hash ∉ default path anchor ->
  replacablement_link book_id (href_of path anchor) =
    if contains slash path then None
    else if forallb isspace path then Some (href_of [] anchor)
    else Some (href_of (format_int book_id ++ underscore ++ path) anchor).
Proof.
  intros Hh. unfold replacablement_link.
  destruct anchor as [a|]; simpl in *.
  - rewrite (rsplit1_last _ _ _ Hh).
    destruct (contains slash path); [reflexivity|].
    rewrite strip_length. destruct (forallb isspace path); reflexivity.
  - rewrite (rsplit1_absent _ _ Hh).
    destruct (contains slash path); [reflexivity|].
    rewrite strip_length. destruct (forallb isspace path); reflexivity.
Qed.

(** C2, as amended.  For an [href] made of a path and an optional
    [#anchor] (the anchor, or the path when there is none, holding no
    further [#]): when the path holds a [/] the link is left as it is;
    when the path has a character that is not white space the new link
    is [{book_id}_{path}] followed by the [#anchor]; when the path is
    empty (a pure anchor) or white space only, the new link is the
    [#anchor] alone, without the book id. *)
Theorem rewrite_href_cases (book_id : Z) (path : unicode) (anchor : option unicode) :
  hash ∉ default path anchor ->
  rewrite_href book_id (href_of path anchor) =
    if contains slash path then href_of path anchor
    else if forallb isspace path then href_of [] anchor
    else href_of (format_int book_id ++ underscore ++ path) anchor.
Proof.
  intros Hh. unfold rewrite_href.
  rewrite (replacablement_link_cases _ _ _ Hh).
  destruct (contains slash path); [reflexivity|].
  destruct (forallb isspace path); reflexivity.
Qed.

Lemma rewrite_href_cases_witness :
  (hash ∉ default (u "chap1.html") (Some (u "sec2")))
  /\ rewrite_href 42 (u "chap1.html#sec2") = u "42_chap1.html#sec2".
Proof.
  assert (hash ∉ default (u "chap1.html") (Some (u "sec2"))) as Hh.
  { apply (bool_decide_unpack _). vm_compute. exact I. }
  split; [exact Hh|].
  exact (rewrite_href_cases 42 (u "chap1.html") (Some (u "sec2")) Hh).
Defined.

(** C2 as stated fails on a pure anchor: for book 42 the link [#sec2]
    stays [#sec2]; it does not become [42_#sec2]. *)
Lemma pure_anchor_not_prefixed :
  rewrite_href 42 (u "#sec2") = u "#sec2"
  /\ rewrite_href 42 (u "#sec2") <> u "42_#sec2".
Proof. split; [reflexivity | discriminate]. Qed.

(** ** The loops over [body.children] *)

Lemma for_children_exhausted {St : Type} (body : St -> node -> St * bool)
    (fuel : nat) (contents : list node) (i : nat) (st : St) :
  (length contents <= i)%nat ->
  for_children body fuel contents i st = (contents, st).
Proof.
  intros Hi. destruct fuel; simpl; [reflexivity|].
  rewrite (lookup_ge_None_2 _ _ Hi). reflexivity.
Qed.

(** The iterator leaves the children it has passed ([done]) alone and
    treats the rest as [sweep] does; a fuel of the length of the rest
    is enough, so the loop always reaches [StopIteration]. *)
Lemma for_children_sweep {St : Type} (body : St -> node -> St * bool)
    (fuel : nat) (done rest : list node) (st : St) :
  (length rest <= fuel)%nat ->
  for_children body fuel (done ++ rest) (length done) st
  = (done ++ (sweep body rest st).1, (sweep body rest st).2).
Proof.
  revert done rest st.
  induction fuel as [|fuel IH]; intros done rest st Hlen.
  - destruct rest; simpl in *; [reflexivity | lia].
  - destruct rest as [|c rest]; simpl.
    + rewrite lookup_ge_None_2; [reflexivity|].
      rewrite length_app. simpl. lia.
    + rewrite list_lookup_middle by reflexivity.
      destruct (body st c) as [st' decomposed] eqn:Hb.
      destruct decomposed.
      * replace (delete (length done) (done ++ c :: rest)) with (done ++ rest).
        2:{ clear. induction done; simpl; [reflexivity | congruence]. }
        destruct rest as [|d rest].
        -- apply for_children_exhausted. rewrite length_app. simpl. lia.
        -- replace (S (length done)) with (length (done ++ [d]))
             by (rewrite length_app; simpl; lia).
           replace (done ++ d :: rest) with ((done ++ [d]) ++ rest)
             by (rewrite <- app_assoc; reflexivity).
           rewrite IH by (simpl in Hlen; lia).
           destruct (sweep body rest st') as [kept st'']. simpl.
           rewrite <- app_assoc. reflexivity.
      * replace (S (length done)) with (length (done ++ [c]))
          by (rewrite length_app; simpl; lia).
        replace (done ++ c :: rest) with ((done ++ [c]) ++ rest)
          by (rewrite <- app_assoc; reflexivity).
        rewrite IH by (simpl in Hlen; lia).
        destruct (sweep body rest st') as [kept st'']. simpl.
        rewrite <- app_assoc. reflexivity.
Qed.

Lemma run_loop_sweep (body : bool -> node -> bool * bool)
    (remove : bool) (contents : list node) :
  run_loop body remove contents = (sweep body contents remove).1.
Proof.
  unfold run_loop.
  pose proof (for_children_sweep body (length contents) [] contents remove (le_n _)) as H.
  simpl in H. rewrite H. reflexivity.
Qed.

(** Where strings separate the tags, the child passed over behind a
    decomposed tag is a string, which the loop body would have left
    alone: the loop does what [walk] does. *)
Lemma sweep_walk {St : Type} (body : St -> node -> St * bool) :
  (forall st c, is_NavigableString c = true -> body st c = (st, false)) ->
  forall (n : nat) (rest : list node) (st : St),
    (length rest <= n)%nat ->
    separated rest = true ->
    sweep body rest st = walk body rest st.
Proof.
  intros Hstr. induction n as [|n IH]; intros rest st Hlen Hsep.
  - destruct rest; simpl in *; [reflexivity | lia].
  - destruct rest as [|c rest]; [reflexivity|].
    simpl. destruct (body st c) as [st' decomposed] eqn:Hb.
    assert (separated rest = true) as Hsep'.
    { destruct rest; [reflexivity|]. simpl in Hsep.
      apply andb_true_iff in Hsep. tauto. }
    destruct decomposed.
    + destruct rest as [|d rest]; [reflexivity|].
      assert (is_NavigableString d = true) as Hd.
      { simpl in Hsep. apply andb_true_iff in Hsep as [Hcd _].
        destruct (is_NavigableString c) eqn:Hc; [|exact Hcd].
        rewrite (Hstr st c Hc) in Hb. discriminate. }
      simpl. rewrite (Hstr st' d Hd).
      assert (separated rest = true) as Hsep''.
      { destruct rest; [reflexivity|]. simpl in Hsep'.
        apply andb_true_iff in Hsep'. tauto. }
      rewrite (IH rest st' ltac:(simpl in Hlen; lia) Hsep'').
      destruct (walk body rest st'). reflexivity.
    + rewrite (IH rest st' ltac:(simpl in Hlen; lia) Hsep').
      reflexivity.
Qed.

(** ** The boilerplate stripper *)

Lemma is_encapsulated_in_div_count (contents : list node) :
  is_encapsulated_in_div contents = (length (tags_of contents) =? 1)%nat.
Proof.
  unfold is_encapsulated_in_div, tags_of. f_equal.
  induction contents as [|c contents IH]; [reflexivity|].
  rewrite filter_cons. simpl.
  destruct (decide (is_NavigableString c = false)) as [Hc|Hc].
  - rewrite Hc. simpl. congruence.
  - destruct (is_NavigableString c); [exact IH | congruence].
Qed.

(** C5.  A body with exactly one child that is not a string is given
    back as it is: the stripper deletes nothing. *)
Theorem strip_body_encapsulated (contents : list node) :
  length (tags_of contents) = 1%nat ->
  strip_body contents = contents.
Proof.
  intros Hone. unfold strip_body, strip_with.
  rewrite is_encapsulated_in_div_count, Hone. reflexivity.
Qed.

Lemma scan_patterns_skip (before rest : list (unicode * unicode)) (contents : list node) :
  Forall (fun pair => present (text_of contents) pair = false) before ->
  scan_patterns (before ++ rest) contents = scan_patterns rest contents.
Proof.
  induction 1 as [|[s e] before Hp _ IH]; [reflexivity|].
  simpl. unfold present in Hp. simpl in Hp.
  apply orb_false_iff in Hp as [-> ->]. simpl. exact IH.
Qed.

Lemma scan_patterns_hit (s e : unicode) (rest : list (unicode * unicode))
    (contents : list node) :
  present (text_of contents) (s, e) = true ->
  scan_patterns ((s, e) :: rest) contents = remove_boilerplate s e contents.
Proof.
  unfold present. simpl. intros Hp.
  destruct (contains s (text_of contents)), (contains e (text_of contents));
    simpl in *; congruence.
Qed.

Lemma scan_patterns_none (table : list (unicode * unicode)) (contents : list node) :
  Forall (fun pair => present (text_of contents) pair = false) table ->
  scan_patterns table contents = contents.
Proof.
  intros Hnone. rewrite <- (app_nil_r table).
  rewrite (scan_patterns_skip _ _ _ Hnone). reflexivity.
Qed.

(** Behind a first pair with a marker in the text, the table does not
    matter. *)
Lemma strip_with_first_match (contents : list node)
    (before later : list (unicode * unicode)) (s e : unicode) :
  Forall (fun pair => present (text_of contents) pair = false) before ->
  present (text_of contents) (s, e) = true ->
  strip_with (before ++ (s, e) :: later) contents
  = if is_encapsulated_in_div contents then contents
    else remove_boilerplate s e contents.
Proof.
  intros Hbefore Hhit. unfold strip_with.
  destruct (is_encapsulated_in_div contents); simpl; [reflexivity|].
  rewrite (scan_patterns_skip _ _ _ Hbefore).
  apply scan_patterns_hit, Hhit.
Qed.

(** C6.  Let [(s, e)] be the first pair of the table of which a marker
    is in the text of the body.  Then the stripper gives back the body
    as it is when one tag wraps it, and otherwise what the removal for
    [(s, e)] makes of it; and whatever pairs come later in the table,
    the result is the same. *)
Theorem first_match_wins (contents : list node)
    (before after : list (unicode * unicode)) (s e : unicode) :
  patterns = before ++ (s, e) :: after ->
  Forall (fun pair => present (text_of contents) pair = false) before ->
  present (text_of contents) (s, e) = true ->
  strip_body contents
  = (if is_encapsulated_in_div contents then contents
     else remove_boilerplate s e contents)
  /\ forall later, strip_with (before ++ (s, e) :: later) contents = strip_body contents.
Proof.
  intros Htable Hbefore Hhit.
  unfold strip_body. rewrite Htable. split.
  - apply strip_with_first_match; assumption.
  - intros later. rewrite !strip_with_first_match by assumption. reflexivity.
Qed.

Lemma both_body_strings (s e : unicode) (remove : bool) (c : node) :
  is_NavigableString c = true -> both_body s e remove c = (remove, false).
Proof. intros Hc. unfold both_body. rewrite Hc. reflexivity. Qed.

Lemma nearest_marker_snoc (s e : unicode) (before : list node) (c : node) :
  nearest_marker s e (before ++ [c])
  = if negb (is_NavigableString c) && (child_has s c || child_has e c)
    then Some c else nearest_marker s e before.
Proof. unfold nearest_marker. rewrite rev_unit. reflexivity. Qed.

(** The flag [remove] is off exactly when the nearest tag with a marker
    before the child holds the start marker. *)
Lemma walk_both_body (s e : unicode) (contents before : list node) (remove : bool) :
  remove = negb (match nearest_marker s e before with
                 | Some m => child_has s m
                 | None => false
                 end) ->
  (walk (both_body s e) contents remove).1
  = keep_where (kept_between s e) before contents.
Proof.
  revert before remove.
  induction contents as [|c contents IH]; intros before remove Hinv; [reflexivity|].
  simpl.
  destruct (both_body s e remove c) as [remove' decomposed] eqn:Hb.
  specialize (IH (before ++ [c]) remove').
  destruct (walk (both_body s e) contents remove') as [kept st''].
  simpl in *. rewrite nearest_marker_snoc in IH.
  unfold both_body in Hb. unfold kept_between.
  destruct (is_NavigableString c) eqn:Hc; simpl in *.
  - injection Hb as <- <-. rewrite IH by exact Hinv. reflexivity.
  - destruct (child_has s c) eqn:Hs; simpl in *.
    + injection Hb as <- <-. rewrite Hs in IH.
      rewrite IH by reflexivity. reflexivity.
    + destruct (child_has e c) eqn:He; simpl in *.
      * injection Hb as <- <-. rewrite Hs in IH.
        rewrite IH by reflexivity. reflexivity.
      * injection Hb as <- <-. rewrite IH by exact Hinv.
        rewrite Hinv.
        destruct (match nearest_marker s e before with
                  | Some m => child_has s m
                  | None => false
                  end); reflexivity.
Qed.

Lemma after_marker_snoc (marker : unicode) (before : list node) (c : node) :
  after_marker marker (before ++ [c])
  = after_marker marker before || (negb (is_NavigableString c) && child_has marker c).
Proof. unfold after_marker. rewrite existsb_app. simpl. rewrite orb_false_r. reflexivity. Qed.

Lemma walk_start_body (s : unicode) (contents before : list node) (remove : bool) :
  remove = negb (after_marker s before) ->
  (walk (start_body s) contents remove).1
  = keep_where (kept_after_start s) before contents.
Proof.
  revert before remove.
  induction contents as [|c contents IH]; intros before remove Hinv; [reflexivity|].
  simpl.
  destruct (start_body s remove c) as [remove' decomposed] eqn:Hb.
  specialize (IH (before ++ [c]) remove').
  destruct (walk (start_body s) contents remove') as [kept st''].
  simpl in *. rewrite after_marker_snoc in IH.
  unfold start_body in Hb. unfold kept_after_start.
  destruct (is_NavigableString c) eqn:Hc; simpl in *.
  - injection Hb as <- <-. rewrite orb_false_r in IH.
    rewrite IH by exact Hinv. reflexivity.
  - destruct (child_has s c) eqn:Hs; simpl in *; injection Hb as <- <-.
    + rewrite orb_true_r in IH. rewrite IH by reflexivity. reflexivity.
    + rewrite orb_false_r in IH. rewrite IH by exact Hinv.
      rewrite Hinv. destruct (after_marker s before); reflexivity.
Qed.

Lemma walk_end_body (e : unicode) (contents before : list node) (remove : bool) :
  remove = after_marker e before ->
  (walk (end_body e) contents remove).1
  = keep_where (kept_before_end e) before contents.
Proof.
  revert before remove.
  induction contents as [|c contents IH]; intros before remove Hinv; [reflexivity|].
  simpl.
  destruct (end_body e remove c) as [remove' decomposed] eqn:Hb.
  specialize (IH (before ++ [c]) remove').
  destruct (walk (end_body e) contents remove') as [kept st''].
  simpl in *. rewrite after_marker_snoc in IH.
  unfold end_body in Hb. unfold kept_before_end.
  destruct (is_NavigableString c) eqn:Hc; simpl in *.
  - injection Hb as <- <-. rewrite orb_false_r in IH.
    rewrite IH by exact Hinv. reflexivity.
  - destruct (child_has e c) eqn:He; simpl in *; injection Hb as <- <-.
    + rewrite orb_true_r in IH. rewrite IH by reflexivity. reflexivity.
    + rewrite orb_false_r in IH. rewrite IH by exact Hinv.
      rewrite Hinv. destruct (after_marker e before); reflexivity.
Qed.

(** X7.  The removal with the start marker alone, on a body in which
    strings separate the top-level tags: all tags up to the first that
    holds the marker go, and behind it the tags that hold it; all else
    stays. *)
Lemma remove_boilerplate_start_only (s e : unicode) (contents : list node) :
  separated contents = true ->
  contains s (text_of contents) = true ->
  contains e (text_of contents) = false ->
  remove_boilerplate s e contents = keep_where (kept_after_start s) [] contents.
Proof.
  intros Hsep Hs He. unfold remove_boilerplate. rewrite Hs, He. simpl.
  rewrite run_loop_sweep.
  rewrite (sweep_walk (start_body s)) with (n := length contents);
    [|intros st c Hc; unfold start_body; rewrite Hc; reflexivity | reflexivity | exact Hsep].
  apply walk_start_body. reflexivity.
Qed.

(** X8.  The removal with the end marker alone, on a body in which
    strings separate the top-level tags: the first tag that holds the
    marker goes, and every tag behind it; all before it stays. *)
Lemma remove_boilerplate_end_only (s e : unicode) (contents : list node) :
  separated contents = true ->
  contains s (text_of contents) = false ->
  contains e (text_of contents) = true ->
  remove_boilerplate s e contents = keep_where (kept_before_end e) [] contents.
Proof.
  intros Hsep Hs He. unfold remove_boilerplate. rewrite Hs, He. simpl.
  rewrite run_loop_sweep.
  rewrite (sweep_walk (end_body e)) with (n := length contents);
    [|intros st c Hc; unfold end_body; rewrite Hc; reflexivity | reflexivity | exact Hsep].
  apply walk_end_body. reflexivity.
Qed.

(** C1, as amended.  Take a body with more than one top-level tag, in
    which strings separate the top-level tags, and the first pair
    [(s, e)] of the table of which a marker is in the text of the body,
    both markers being there.  The stripper keeps all top-level
    strings, and keeps exactly the top-level tags that hold neither
    marker and follow a tag holding [s] with no tag holding [s] or [e]
    in between; every other top-level tag is deleted. *)
Theorem strip_body_keeps_between (contents : list node)
    (before after : list (unicode * unicode)) (s e : unicode) :
  (1 < length (tags_of contents))%nat ->
  separated contents = true ->
  patterns = before ++ (s, e) :: after ->
  Forall (fun pair => present (text_of contents) pair = false) before ->
  contains s (text_of contents) = true ->
  contains e (text_of contents) = true ->
  strip_body contents = keep_where (kept_between s e) [] contents.
Proof.
  intros Hmany Hsep Htable Hbefore Hs He.
  unfold strip_body. rewrite Htable.
  rewrite strip_with_first_match;
    [|exact Hbefore | unfold present; simpl; rewrite Hs; reflexivity].
  rewrite is_encapsulated_in_div_count.
  destruct (Nat.eqb_spec (length (tags_of contents)) 1) as [Hone|_]; [lia|].
  unfold remove_boilerplate. rewrite Hs, He. simpl.
  rewrite run_loop_sweep.
  rewrite (sweep_walk _ (both_body_strings s e) (length contents) contents true
             (le_n _) Hsep).
  apply walk_both_body. reflexivity.
Qed.

Lemma keep_where_app (keep : list node -> node -> bool) (before a b : list node) :
  keep_where keep before (a ++ b)
  = keep_where keep before a ++ keep_where keep (before ++ a) b.
Proof.
  revert before. induction a as [|c a IH]; intros before; simpl.
  - rewrite app_nil_r. reflexivity.
  - rewrite IH, <- !app_assoc. reflexivity.
Qed.

Lemma after_start_snoc (s e : unicode) (before : list node) (c : node) :
  after_start s e (before ++ [c])
  = if negb (is_NavigableString c) && (child_has s c || child_has e c)
    then child_has s c else after_start s e before.
Proof.
  unfold after_start. rewrite nearest_marker_snoc.
  destruct (negb (is_NavigableString c) && (child_has s c || child_has e c));
    reflexivity.
Qed.

(** Before a start marker, or past an end marker, a stretch of children
    without the start marker loses all its tags. *)
Lemma keep_where_outside (s e : unicode) (seg before : list node) :
  after_start s e before = false ->
  Forall (fun c => is_NavigableString c = false -> child_has s c = false) seg ->
  keep_where (kept_between s e) before seg = strings_of seg
  /\ after_start s e (before ++ seg) = false.
Proof.
  intros Hoff Hseg. revert before Hoff.
  induction Hseg as [|c seg Hc _ IH]; intros before Hoff.
  - rewrite app_nil_r. split; [reflexivity | exact Hoff].
  - assert (after_start s e (before ++ [c]) = false) as Hoff'.
    { rewrite after_start_snoc.
      destruct (is_NavigableString c); simpl; [exact Hoff|].
      rewrite (Hc eq_refl). simpl. destruct (child_has e c); [reflexivity | exact Hoff]. }
    destruct (IH _ Hoff') as [IHk IHa].
    rewrite <- app_assoc in IHa. simpl in IHa.
    split; [|exact IHa].
    simpl. rewrite IHk. unfold kept_between. fold (after_start s e before).
    rewrite Hoff, andb_false_r, orb_false_r.
    unfold strings_of. rewrite filter_cons.
    destruct (is_NavigableString c); reflexivity.
Qed.

(** Past a start marker, a stretch of children without markers is kept
    whole. *)
Lemma keep_where_inside (s e : unicode) (seg before : list node) :
  after_start s e before = true ->
  Forall (fun c => is_NavigableString c = false ->
                   child_has s c = false /\ child_has e c = false) seg ->
  keep_where (kept_between s e) before seg = seg
  /\ after_start s e (before ++ seg) = true.
Proof.
  intros Hon Hseg. revert before Hon.
  induction Hseg as [|c seg Hc _ IH]; intros before Hon.
  - rewrite app_nil_r. split; [reflexivity | exact Hon].
  - assert (after_start s e (before ++ [c]) = true) as Hon'.
    { rewrite after_start_snoc.
      destruct (is_NavigableString c); simpl; [exact Hon|].
      destruct (Hc eq_refl) as [-> ->]. exact Hon. }
    destruct (IH _ Hon') as [IHk IHa].
    rewrite <- app_assoc in IHa. simpl in IHa.
    split; [|exact IHa].
    simpl. rewrite IHk. unfold kept_between. fold (after_start s e before).
    rewrite Hon, andb_true_r.
    destruct (is_NavigableString c); [reflexivity|].
    destruct (Hc eq_refl) as [-> ->]. reflexivity.
Qed.

(** What [strip_body_keeps_between] gives for a body laid out as C1
    has it: a first tag [cs] with the start marker, tags without
    markers, a tag [ce] with the end marker and not the start marker,
    and no start marker behind.  Exactly the tags strictly between
    [cs] and [ce] stay. *)
Lemma keep_where_between (s e : unicode) (pre mid post : list node) (cs ce : node) :
  Forall (fun c => is_NavigableString c = false -> child_has s c = false) pre ->
  is_NavigableString cs = false -> child_has s cs = true ->
  Forall (fun c => is_NavigableString c = false ->
                   child_has s c = false /\ child_has e c = false) mid ->
  is_NavigableString ce = false -> child_has e ce = true -> child_has s ce = false ->
  Forall (fun c => is_NavigableString c = false -> child_has s c = false) post ->
  keep_where (kept_between s e) [] (pre ++ cs :: mid ++ ce :: post)
  = strings_of pre ++ mid ++ strings_of post.
Proof.
  intros Hpre Hcs Hs Hmid Hce He Hns Hpost.
  destruct (keep_where_outside s e pre [] eq_refl Hpre) as [Kpre Apre].
  simpl in Apre.
  assert (after_start s e (pre ++ [cs]) = true) as Acs.
  { rewrite after_start_snoc, Hcs, Hs. reflexivity. }
  destruct (keep_where_inside s e mid _ Acs Hmid) as [Kmid Amid].
  assert (after_start s e (((pre ++ [cs]) ++ mid) ++ [ce]) = false) as Ace.
  { rewrite after_start_snoc, Hce, He, Hns, orb_true_r. reflexivity. }
  destruct (keep_where_outside s e post _ Ace Hpost) as [Kpost _].
  replace (pre ++ cs :: mid ++ ce :: post)
    with (pre ++ [cs] ++ mid ++ [ce] ++ post) by reflexivity.
  rewrite !keep_where_app. simpl.
  rewrite Kpre, Kmid, Kpost.
  unfold kept_between. rewrite Hcs, Hce, Hs, He. simpl.
  rewrite andb_false_r. reflexivity.
Qed.

Lemma strip_body_keeps_between_witness :
  strip_body page_markers = [nl; nl; para "chapter"; nl; nl].
Proof.
  exact (strip_body_keeps_between page_markers [] (tail patterns) _ _
           ltac:(vm_compute; lia) eq_refl eq_refl (Forall_nil_2 _)
           ltac:(vm_compute; reflexivity) ltac:(vm_compute; reflexivity)).
Defined.

(** C1 as stated fails for the third pair of the table, the two
    markers of which are one and the same line: the tag behind the
    second such line is kept, though it is not between the first tag
    with the start marker and the first tag with the end marker that
    follows it. *)
Lemma same_marker_keeps_footer :
  (rule, rule) ∈ patterns
  /\ (1 < length (tags_of page_same_marker))%nat
  /\ contains rule (text_of page_same_marker) = true
  /\ page_same_marker
     = [para "header"; nl] ++ Tag (u "p") ∅ [NavigableString rule]
         :: [nl; para "text1"; nl] ++ Tag (u "p") ∅ [NavigableString rule]
         :: [nl; para "footer"]
  /\ tags_of (strip_body page_same_marker) = [para "text1"; para "footer"]
  /\ tags_of (strip_body page_same_marker) <> tags_of [nl; para "text1"; nl].
Proof.
  split; [|split; [|split; [|split; [|split]]]].
  - apply (bool_decide_unpack _). vm_compute. exact I.
  - vm_compute. lia.
  - vm_compute. reflexivity.
  - reflexivity.
  - vm_compute. reflexivity.
  - vm_compute. discriminate.
Qed.

(** Without strings between the tags the iterator passes over the tag
    behind each tag it deletes: [notes] and [license] stay. *)
Lemma crowded_tags_passed_over :
  strip_body page_crowded = [para "notes"; para "chapter"; para "license"].
Proof. vm_compute. reflexivity. Qed.

Lemma strip_body_encapsulated_witness :
  length (tags_of page_wrapped) = 1%nat /\ strip_body page_wrapped = page_wrapped.
Proof.
  split; [reflexivity|].
  exact (strip_body_encapsulated page_wrapped eq_refl).
Defined.

(** On [page_this] the fourth pair is the first with a marker in the
    text: only its start marker is there, so all behind the start
    stays, the sixth pair notwithstanding. *)
Lemma first_match_wins_witness :
  strip_body page_this
  = [nl; nl; para "chapter"; nl;
     para "*** END OF THIS PROJECT GUTENBERG EBOOK EMMA ***"; nl; para "license"]
  /\ forall later,
       strip_with (take 3 patterns
                   ++ (u "*** START OF THIS PROJECT GUTENBERG EBOOK",
                       u "*** START: FULL LICENSE ***") :: later) page_this
       = strip_body page_this.
Proof.
  exact (first_match_wins page_this (take 3 patterns) (drop 4 patterns) _ _
           eq_refl
           ltac:(repeat constructor)
           ltac:(vm_compute; reflexivity)).
Defined.

(** ** The popularity stars *)

Lemma setitem_length {A : Type} (l l' : list A) (i : Z) (x : A) :
  setitem l i x = Some l' -> length l' = length l.
Proof.
  unfold setitem. intros H.
  repeat match type of H with
         | (if ?c then _ else _) = _ => destruct c
         end; simplify_eq; apply length_insert.
Qed.

Lemma setitem_in_range {A : Type} (l : list A) (i : Z) (x : A) :
  (0 <= i < Z.of_nat (length l))%Z -> is_Some (setitem l i x).
Proof.
  intros Hi. unfold setitem.
  destruct (Z.leb_spec 0 i); [|lia].
  destruct (Z.ltb_spec i (Z.of_nat (length l))); [|lia].
  simpl. eexists. reflexivity.
Qed.

Lemma popularity_thresholds_met (stars_limits : list N) (downloads : N) :
  length stars_limits = 5%nat ->
  popularity stars_limits downloads = Some (thresholds_met stars_limits downloads).
Proof.
  intros Hlen.
  destruct stars_limits as [|l0 [|l1 [|l2 [|l3 [|l4 [|l5 r]]]]]]; try discriminate.
  reflexivity.
Qed.

Lemma thresholds_met_mono (stars_limits : list N) (a b : N) :
  b <= a -> (thresholds_met stars_limits b <= thresholds_met stars_limits a)%nat.
Proof.
  intros Hba. unfold thresholds_met.
  induction stars_limits as [|l ls IH]; [reflexivity|].
  rewrite !fmap_cons. cbn [sum_list sum_list_with].
  revert IH. generalize (sum_list ((fun limit => if limit <=? b then 1%nat else 0%nat) <$> ls)).
  generalize (sum_list ((fun limit => if limit <=? a then 1%nat else 0%nat) <$> ls)).
  intros sa sb IH.
  destruct (N.leb_spec l b), (N.leb_spec l a); unfold id; lia.
Qed.

Section PopularityFacts.

Variable past_band : Z -> nat -> nat -> bool.

(** The product [float(5)/5*count] is [count], which no [ibook] of
    the range exceeds: with one star left the test fails. *)
Hypothesis past_last_band :
  forall count ibook, (ibook < count)%nat -> past_band 1%Z count ibook = false.

(** There are five thresholds and [stars] stays between 1 and 5, so
    line 139 never leaves the list. *)
Lemma popularity_step_total (popbooks : list N) (ibook : nat)
    (stars_limits : list N) (stars : Z) (nb_downloads : N) :
  (ibook < length popbooks)%nat ->
  length stars_limits = 5%nat -> (1 <= stars <= 5)%Z ->
  exists stars_limits' stars' nb_downloads',
    popularity_step past_band popbooks ibook (stars_limits, stars, nb_downloads)
    = Some (stars_limits', stars', nb_downloads')
    /\ length stars_limits' = 5%nat /\ (1 <= stars' <= 5)%Z.
Proof.
  intros Hi Hlen Hstars. unfold popularity_step.
  destruct (lookup_lt_is_Some_2 popbooks ibook Hi) as [d Hd].
  rewrite Hd. simpl.
  destruct (past_band stars (length popbooks) ibook && (d <? nb_downloads)) eqn:Htest.
  - apply andb_true_iff in Htest as [Hband _].
    assert (stars <> 1%Z) as Hne.
    { intros ->. rewrite (past_last_band _ _ Hi) in Hband. discriminate. }
    destruct (setitem_in_range stars_limits (stars - 1) nb_downloads) as [l' Hl'].
    { rewrite Hlen. lia. }
    rewrite Hl'. simpl. exists l', (stars - 1)%Z, d.
    split; [reflexivity|]. split; [|lia].
    rewrite (setitem_length _ _ _ _ Hl'). exact Hlen.
  - exists stars_limits, stars, d. auto.
Qed.

Lemma popularity_loop_total (popbooks : list N) (range : list nat)
    (stars_limits : list N) (stars : Z) (nb_downloads : N) :
  Forall (fun ibook => (ibook < length popbooks)%nat) range ->
  length stars_limits = 5%nat -> (1 <= stars <= 5)%Z ->
  exists stars_limits' stars' nb_downloads',
    popularity_loop past_band popbooks range (stars_limits, stars, nb_downloads)
    = Some (stars_limits', stars', nb_downloads')
    /\ length stars_limits' = 5%nat.
Proof.
  intros Hrange. revert stars_limits stars nb_downloads.
  induction Hrange as [|ibook range Hi _ IH]; intros stars_limits stars nb_downloads Hlen Hstars.
  - exists stars_limits, stars, nb_downloads. auto.
  - destruct (popularity_step_total popbooks ibook stars_limits stars nb_downloads
                Hi Hlen Hstars) as (l' & s' & d' & Hstep & Hlen' & Hstars').
    cbn [popularity_loop]. rewrite Hstep. cbn [mbind option_bind].
    apply IH; assumption.
Qed.

(** The thresholds are computed for every collection but the empty
    one, and there are five of them. *)
Lemma compute_stars_limits_total (popbooks : list N) :
  popbooks <> [] ->
  exists stars_limits,
    compute_stars_limits past_band popbooks = Some stars_limits
    /\ length stars_limits = 5%nat.
Proof.
  intros Hne. unfold compute_stars_limits.
  destruct popbooks as [|d popbooks]; [congruence|].
  change ((d :: popbooks) !! 0%nat) with (Some d). cbn [mbind option_bind].
  destruct (popularity_loop_total (d :: popbooks) (seq 0 (length (d :: popbooks)))
              (replicate (Z.to_nat NB_POPULARITY_STARS) 0) NB_POPULARITY_STARS d)
    as (l' & s' & d' & Hloop & Hlen').
  - apply Forall_forall. intros i Hi. apply list_elem_of_In, in_seq in Hi. lia.
  - reflexivity.
  - unfold NB_POPULARITY_STARS. lia.
  - rewrite Hloop. exists l'. auto.
Qed.

End PopularityFacts.

(** C4.  For download counts in non-increasing order, and whatever the
    float products of line 137 come to below the last band: the stars
    are computed whenever there is a book, they do not increase along
    the order, and books with the same count get the same stars.  (On
    an empty collection [popbooks[0]] raises, and no book is rated.) *)
Theorem popularities_non_increasing (past_band : Z -> nat -> nat -> bool)
    (popbooks : list N) :
  (forall count ibook, (ibook < count)%nat -> past_band 1%Z count ibook = false) ->
  (forall i j a b, (i <= j)%nat ->
     popbooks !! i = Some a -> popbooks !! j = Some b -> b <= a) ->
  match popularities past_band popbooks with
  | Some stars =>
      length stars = length popbooks
      /\ (forall i j m n, (i <= j)%nat ->
            stars !! i = Some m -> stars !! j = Some n -> (n <= m)%nat)
      /\ (forall i j d, popbooks !! i = Some d -> popbooks !! j = Some d ->
            stars !! i = stars !! j)
  | None => popbooks = []
  end.
Proof.
  intros Hband Hsorted. unfold popularities.
  destruct popbooks as [|d0 popbooks0] eqn:Hpop; [reflexivity|].
  rewrite <- Hpop in *.
  destruct (compute_stars_limits_total past_band Hband popbooks) as (limits & -> & Hlen).
  { rewrite Hpop. discriminate. }
  cbn [mbind option_bind].
  assert (mapM (popularity limits) popbooks = Some (thresholds_met limits <$> popbooks)) as ->.
  { apply mapM_Some. apply Forall2_fmap_r, Forall_Forall2_diag, Forall_forall.
    intros d _. apply popularity_thresholds_met, Hlen. }
  split; [apply length_fmap|]. split.
  - intros i j m n Hij Hi Hj.
    rewrite list_lookup_fmap in Hi, Hj.
    destruct (popbooks !! i) as [a|] eqn:Ha; [|discriminate].
    destruct (popbooks !! j) as [b|] eqn:Hb; [|discriminate].
    simpl in Hi, Hj. injection Hi as <-. injection Hj as <-.
    apply thresholds_met_mono. exact (Hsorted i j a b Hij Ha Hb).
  - intros i j d Hi Hj. rewrite !list_lookup_fmap, Hi, Hj. reflexivity.
Qed.

Lemma past_band_exact_last (count ibook : nat) :
  (ibook < count)%nat -> past_band_exact 1%Z count ibook = false.
Proof.
  intros Hi. unfold past_band_exact, NB_POPULARITY_STARS.
  apply Z.ltb_ge. lia.
Qed.

Lemma popularities_non_increasing_witness :
  popularities past_band_exact [100; 100; 90; 80; 80; 80; 10]
  = Some [5; 5; 4; 3; 3; 3; 2]%nat
  /\ match popularities past_band_exact [100; 100; 90; 80; 80; 80; 10] with
     | Some stars =>
         length stars = 7%nat
         /\ (forall i j m n, (i <= j)%nat ->
               stars !! i = Some m -> stars !! j = Some n -> (n <= m)%nat)
         /\ (forall i j d,
               [100; 100; 90; 80; 80; 80; 10] !! i = Some d ->
               [100; 100; 90; 80; 80; 80; 10] !! j = Some d ->
               stars !! i = stars !! j)
     | None => False
     end.
Proof.
  split; [reflexivity|].
  pose proof (popularities_non_increasing past_band_exact
                [100; 100; 90; 80; 80; 80; 10] past_band_exact_last) as H.
  destruct (popularities past_band_exact [100; 100; 90; 80; 80; 80; 10]);
    [|discriminate H].
  - apply H. intros i j a b Hij Ha Hb.
    do 7 (destruct i as [|i]; [do 7 (destruct j as [|j]; [simplify_eq/=; lia|]);
                                 discriminate|]).
    discriminate.
  - intros i j a b Hij Ha Hb.
    do 7 (destruct i as [|i]; [do 7 (destruct j as [|j]; [simplify_eq/=; lia|]);
                                 discriminate|]).
    discriminate.
Defined.

Lemma popularity_loop_all_equal (past_band : Z -> nat -> nat -> bool)
    (d : N) (n : nat) (range : list nat) (stars_limits : list N) (stars : Z) :
  Forall (fun ibook => (ibook < n)%nat) range ->
  popularity_loop past_band (replicate n d) range (stars_limits, stars, d)
  = Some (stars_limits, stars, d).
Proof.
  induction 1 as [|ibook range Hi _ IH]; [reflexivity|].
  cbn [popularity_loop]. unfold popularity_step at 1.
  rewrite (lookup_replicate_2 n d ibook Hi). cbn [mbind option_bind].
  rewrite N.ltb_irrefl, andb_false_r. cbn [mbind option_bind]. exact IH.
Qed.

(** C9.  When all the books of a collection that is not empty have the
    same download count, no threshold is recorded, the five of them
    stay 0, and every book gets 5 stars. *)
Theorem popularities_all_equal (past_band : Z -> nat -> nat -> bool) (d : N) (n : nat) :
  compute_stars_limits past_band (replicate (S n) d) = Some [0; 0; 0; 0; 0]
  /\ popularities past_band (replicate (S n) d) = Some (replicate (S n) 5%nat).
Proof.
  assert (compute_stars_limits past_band (replicate (S n) d) = Some [0; 0; 0; 0; 0]) as Hlimits.
  { unfold compute_stars_limits.
    change (replicate (S n) d !! 0%nat) with (Some d). cbn [mbind option_bind].
    rewrite popularity_loop_all_equal; [reflexivity|].
    rewrite length_replicate. apply Forall_forall.
    intros i Hi. apply list_elem_of_In, in_seq in Hi. lia. }
  split; [exact Hlimits|].
  unfold popularities. rewrite Hlimits. cbn [mbind option_bind].
  apply mapM_Some. apply Forall2_replicate.
  rewrite popularity_thresholds_met by reflexivity.
  unfold thresholds_met. simpl.
  destruct (N.leb_spec 0 d); [reflexivity | lia].
Qed.

(** ** The article page *)

(** C8.  When [update_html_for_static] raises on the page of a book,
    [export_book_to] still writes the article, with the bytes read
    from the cache unchanged. *)
Theorem export_article_falls_back (parse : list N -> option node)
    (encode : bool -> node -> option (list N)) (render_infobox : book -> option node)
    (b : book) (download_cache static_folder : gmap unicode (list N))
    (html : list N) :
  html_content_for b download_cache = Some html ->
  html <> [] ->
  update_html_for_static parse encode render_infobox b html false = None ->
  export_article parse encode render_infobox b download_cache static_folder
  = <[article_name_for b false := html]> static_folder.
Proof.
  intros Hread Hne Hraise. unfold export_article.
  rewrite Hread. destruct html as [|c html]; [congruence|].
  rewrite Hraise. reflexivity.
Qed.

(** Induction on a page element, with the property known of the
    contents of a tag. *)
Lemma node_ind_contents (P : node -> Prop) :
  (forall s, P (NavigableString s)) ->
  (forall nm attrs cs, Forall P cs -> P (Tag nm attrs cs)) ->
  forall e, P e.
Proof.
  intros Hs Ht. fix IH 1. intros [s|nm attrs cs]; [apply Hs|].
  apply Ht. induction cs as [|c cs IHcs]; constructor; [apply IH | exact IHcs].
Qed.

Lemma findAll_Tag (name nm : unicode) (attrs : gmap unicode unicode) (cs : list node) :
  Bs4.findAll name (Tag nm attrs cs)
  = flat_map (fun c => (if named name c then [c] else []) ++ Bs4.findAll name c) cs.
Proof.
  unfold Bs4.findAll. simpl.
  induction cs as [|c cs IH]; [reflexivity|].
  rewrite filter_cons, filter_app, IH.
  destruct (decide (named name c = true)) as [Hn|Hn]; simpl.
  - rewrite Hn. reflexivity.
  - destruct (named name c); [congruence | reflexivity].
Qed.

(** [alter_first] gives [None] exactly when there is no tag of that
    name: [soup.find(name)] is [None]. *)
Lemma alter_first_None (name : unicode) (f : list node -> list node) (e : node) :
  alter_first name f e = None
  <-> named name e = false /\ Bs4.findAll name e = [].
Proof.
  induction e as [s|nm attrs cs IH] using node_ind_contents; [tauto|].
  rewrite findAll_Tag. simpl.
  destruct (bool_decide (nm = name)); [split; [discriminate | intros [? _]; discriminate]|].
  induction IH as [|c cs Hc _ IHcs]; simpl; [tauto|].
  destruct (alter_first name f c) as [c'|] eqn:Hfirst.
  - split; [discriminate|]. intros [_ Hnil].
    apply app_eq_nil in Hnil as [Hnil _]. apply app_eq_nil in Hnil as [Hn Hfa].
    exfalso. enough (Some c' = None) by discriminate.
    apply Hc. split; [|exact Hfa].
    destruct (named name c); [discriminate | reflexivity].
  - destruct (proj1 Hc eq_refl) as [-> ->]. simpl.
    revert IHcs.
    destruct ((fix below (cs0 : list node) : option (list node) :=
                 match cs0 with
                 | [] => None
                 | c0 :: cs' =>
                     match alter_first name f c0 with
                     | Some c'0 => Some (c'0 :: cs')
                     | None => option_map (cons c0) (below cs')
                     end
                 end) cs); simpl; intros IHcs.
    + split; [discriminate|]. intros [_ Hnil].
      exfalso. enough (Some (Tag nm attrs l) = None) by discriminate.
      apply IHcs. auto.
    + split; [|reflexivity]. intros _. split; [reflexivity|]. apply IHcs. reflexivity.
Qed.

Lemma find_None (name : unicode) (soup : node) :
  Bs4.find name soup = None <-> Bs4.findAll name soup = [].
Proof.
  unfold Bs4.find. destruct (Bs4.findAll name soup); simpl; split; congruence.
Qed.

(** Inside an archive, where links and title are left alone, the patch
    of a page raises exactly when the page has no body. *)
Lemma update_soup_epub_raises (render_infobox : book -> option node)
    (b : book) (soup : node) :
  named (u "body") soup = false ->
  update_soup_for_static render_infobox b true soup = None
  <-> Bs4.find (u "body") soup = None.
Proof.
  intros Hroot. unfold update_soup_for_static. cbn [mbind option_bind].
  rewrite find_None.
  destruct (alter_first (u "body") strip_body soup) as [soup'|] eqn:Hbody.
  - simpl. split; [discriminate|]. intros Hnil.
    assert (alter_first (u "body") strip_body soup = None) as Hnone
      by (apply alter_first_None; auto).
    congruence.
  - apply alter_first_None in Hbody as [_ Hnil]. simpl. tauto.
Qed.

Lemma update_soup_untitled_raises (render_infobox : book -> option node) (b : book) :
  update_soup_for_static render_infobox b false page_untitled = None.
Proof. vm_compute. reflexivity. Qed.

Lemma update_soup_bodiless_raises (render_infobox : book -> option node)
    (b : book) (epub : bool) :
  update_soup_for_static render_infobox b epub page_bodiless = None.
Proof. destruct epub; vm_compute; reflexivity. Qed.

Lemma update_soup_titled_returns :
  update_soup_for_static (fun _ => Some (tag "div" [])) emma false page_titled
  = Some (tag "[document]"
            [tag "html" [tag "head" [tag "title" [text "Emma"]];
                         tag "body" [tag "div" []; para "chapter"; nl; para "end"]]]).
Proof. vm_compute. reflexivity. Qed.

Lemma export_article_falls_back_witness :
  export_article (fun _ => Some page_untitled) (fun _ _ => Some [0])
    (fun _ => Some (tag "div" []))
    emma {[ u "11.html" := [60; 112; 62] ]} ∅
  = {[ u "Emma.11.html" := [60; 112; 62] ]}.
Proof.
  exact (export_article_falls_back (fun _ => Some page_untitled) (fun _ _ => Some [0])
           (fun _ => Some (tag "div" [])) emma
           {[ u "11.html" := [60; 112; 62] ]} ∅ [60; 112; 62]
           eq_refl ltac:(discriminate) eq_refl).
Defined.

(** ** The navigation file *)

(** A decomposed object has no [next_sibling] left. *)
Lemma decompose_next_sibling (s : nat) (h : gmap nat Dom.element) :
  Dom.decompose s h !! s ≫= Dom.next_sibling = None.
Proof.
  unfold Dom.decompose. cbn [foldr].
  rewrite lookup_alter_eq.
  destruct (foldr (alter Dom.cleared) (Dom.extract s h)
              (Dom.descendants (size h) (Dom.extract s h) s) !! s); reflexivity.
Qed.

(** So the loop of lines 475-476 over the siblings behind a decomposed
    navigation point has nothing to run over. *)
Lemma decompose_next_siblings_nothing (fuel s : nat) (h : gmap nat Dom.element) :
  Dom.decompose_next_siblings fuel
    (Dom.decompose s h !! s ≫= Dom.next_sibling) (Dom.decompose s h)
  = Dom.decompose s h.
Proof. rewrite decompose_next_sibling. destruct fuel; reflexivity. Qed.

(** C3 fails on [ncx_license]: the navigation point of the license
    goes, the two behind it stay. *)
Lemma patch_ncx_keeps_following :
  patch_ncx ncx_license
  = Some (tag "[document]"
            [tag "ncx"
               [tag "docTitle" [tag "text" [text "Emma"]];
                tag "navMap"
                  [navPoint "Chapter 1"; navPoint "Chapter 2";
                   navPoint "Section 1"; navPoint "Section 2"]]]).
Proof. vm_compute. reflexivity. Qed.

(** ** The archive patcher *)

Import Epub.

Lemma step_in_refl (tmpd : nat) (about : event -> Prop) (w : world) :
  step_in tmpd about w w.
Proof.
  split; [|split; [reflexivity | tauto]].
  exists []. rewrite app_nil_r. split; [reflexivity | constructor].
Qed.

Lemma step_in_trans (tmpd : nat) (about : event -> Prop) (w1 w2 w3 : world) :
  step_in tmpd about w1 w2 -> step_in tmpd about w2 w3 -> step_in tmpd about w1 w3.
Proof.
  intros ((evs1 & Ht1 & Ha1) & Hd1 & Hm1) ((evs2 & Ht2 & Ha2) & Hd2 & Hm2).
  split; [|split; [congruence | tauto]].
  exists (evs1 ++ evs2). rewrite Ht2, Ht1, app_assoc.
  split; [reflexivity | apply Forall_app; tauto].
Qed.

Lemma step_in_weaken (tmpd : nat) (about about' : event -> Prop) (w w' : world) :
  (forall ev, about ev -> about' ev) ->
  step_in tmpd about w w' -> step_in tmpd about' w w'.
Proof.
  intros Himp ((evs & Ht & Ha) & Hd & Hm).
  split; [|tauto]. exists evs. split; [exact Ht|].
  eapply Forall_impl; eauto.
Qed.

Lemma bind_unfold {A B : Type} (m : M A) (f : A -> M B) (w : world) :
  (m ≫= f) w = match m w with
               | (Returned a, w') => f a w'
               | (Raised, w') => (Raised, w')
               end.
Proof. reflexivity. Qed.

Section Respects.

Variable tmpd : nat.
Variable about : event -> Prop.

Lemma respects_ret {A : Type} (a : A) : respects (step_in tmpd about) (mret a).
Proof. intros w. apply step_in_refl. Qed.

Lemma respects_raise {A : Type} : respects (step_in tmpd about) (@raise A).
Proof. intros w. apply step_in_refl. Qed.

Lemma respects_lift {A : Type} (o : option A) : respects (step_in tmpd about) (lift o).
Proof. destruct o; [apply respects_ret | apply respects_raise]. Qed.

Lemma respects_bind {A B : Type} (m : M A) (f : A -> M B) :
  respects (step_in tmpd about) m ->
  (forall a, respects (step_in tmpd about) (f a)) ->
  respects (step_in tmpd about) (m ≫= f).
Proof.
  intros Hm Hf w. rewrite bind_unfold. specialize (Hm w).
  destruct (m w) as [[a|] w1]; simpl in Hm; [|exact Hm].
  eapply step_in_trans; [exact Hm | apply Hf].
Qed.

Lemma respects_emit (ev : event) :
  about ev -> respects (step_in tmpd about) (emit ev).
Proof.
  intros Hev w. split; [|split; [reflexivity | tauto]].
  exists [ev]. split; [reflexivity | repeat constructor; exact Hev].
Qed.

Lemma respects_read (fname : unicode) :
  respects (step_in tmpd about) (read tmpd fname).
Proof.
  intros w. unfold read.
  destruct (tmp_folders w !! tmpd ≫= fun files => files !! fname);
    apply step_in_refl.
Qed.

Lemma respects_exists (fname : unicode) :
  respects (step_in tmpd about) (exists_ tmpd fname).
Proof. intros w. apply step_in_refl. Qed.

Lemma respects_write (fname : unicode) (data : list N) :
  about (Written fname) -> respects (step_in tmpd about) (write tmpd fname data).
Proof.
  intros Hev w. split; [|split]; simpl.
  - exists [Written fname]. split; [reflexivity | repeat constructor; exact Hev].
  - apply delete_alter_eq.
  - rewrite dom_alter_L. tauto.
Qed.

Lemma respects_unlink_p (fname : unicode) :
  respects (step_in tmpd about) (unlink_p tmpd fname).
Proof.
  intros w. split; [|split]; simpl.
  - exists []. rewrite app_nil_r. split; [reflexivity | constructor].
  - apply delete_alter_eq.
  - rewrite dom_alter_L. tauto.
Qed.

Lemma respects_extractall (zf : list (unicode * list N)) :
  respects (step_in tmpd about) (extractall tmpd zf).
Proof.
  intros w. split; [|split]; simpl.
  - exists []. rewrite app_nil_r. split; [reflexivity | constructor].
  - apply delete_insert_eq.
  - intros _. rewrite dom_insert_L. set_solver.
Qed.

End Respects.

Lemma respects_weaken {A : Type} (tmpd : nat) (about about' : event -> Prop) (m : M A) :
  (forall ev, about ev -> about' ev) ->
  respects (step_in tmpd about) m -> respects (step_in tmpd about') m.
Proof. intros Himp Hm w. eapply step_in_weaken; [exact Himp | apply Hm]. Qed.

Lemma respects_optimize_image (tmpd : nat) (fname : unicode) :
  respects (step_in tmpd (fun ev => event_entry ev = Some fname)) (optimize_image fname).
Proof.
  unfold optimize_image, optimize_png, optimize_jpeg, optimize_gif, exec_cmd.
  repeat case_bool_decide;
    repeat first [ apply respects_bind; [|intros ?]
                 | apply respects_emit; reflexivity
                 | apply respects_ret ].
Qed.

Section PatcherFacts.

Variable parse : list N -> option node.
Variable encode : bool -> node -> option (list N).
Variable render_infobox : book -> option node.
Variable parse_xml : list N -> option node.
Variable encode_xml : node -> option (list N).
Variable is_bad_cover : unicode -> bool.
Variable b : book.

Abbreviation entry_body := (entry_body parse encode render_infobox parse_xml encode_xml is_bad_cover b).
Abbreviation for_zipped_files :=
  (for_zipped_files parse encode render_infobox parse_xml encode_xml is_bad_cover b).
Abbreviation drop_cover := (drop_cover parse_xml encode_xml b).
Abbreviation optimize_epub :=
  (optimize_epub parse encode render_infobox parse_xml encode_xml is_bad_cover b).

(** One run of the loop body adds events about its entry alone. *)
Lemma respects_entry_body (tmpd : nat) (fname : unicode)
    (zipped_files : list unicode) (remove_cover : bool) :
  respects (step_in tmpd (fun ev => event_entry ev = Some fname))
    (entry_body tmpd fname zipped_files remove_cover).
Proof.
  unfold Epub.entry_body.
  apply respects_bind; [|intros [zf rc]; apply respects_bind; [|intros _; apply respects_bind; [|intros _; apply respects_ret]]].
  - case_bool_decide; [|apply respects_ret].
    destruct (endswith fname (u "cover.jpg") && is_bad_cover fname); [apply respects_ret|].
    apply respects_bind; [apply respects_optimize_image | intros _; apply respects_ret].
  - case_bool_decide; [|apply respects_ret].
    apply respects_bind; [apply respects_read | intros data].
    apply respects_bind; [apply respects_lift | intros html].
    apply respects_write. reflexivity.
  - case_bool_decide; [|apply respects_ret].
    apply respects_bind; [apply respects_read | intros data].
    apply respects_bind; [apply respects_lift | intros soup].
    apply respects_bind; [apply respects_lift | intros data'].
    apply respects_write. reflexivity.
Qed.

Lemma respects_for_zipped_files (tmpd fuel : nat)
    (zipped_files : list unicode) (i : nat) (remove_cover : bool) :
  respects (step_in tmpd (fun _ => True))
    (for_zipped_files fuel tmpd zipped_files i remove_cover).
Proof.
  revert zipped_files i remove_cover.
  induction fuel as [|fuel IH]; intros zipped_files i remove_cover; simpl.
  - apply respects_ret.
  - destruct (zipped_files !! i) as [fname|]; [|apply respects_ret].
    apply respects_bind.
    + eapply respects_weaken; [|apply respects_entry_body]. auto.
    + intros [zf rc]. apply IH.
Qed.

Lemma respects_drop_cover (tmpd : nat) :
  respects (step_in tmpd (fun _ => True)) (drop_cover tmpd).
Proof.
  unfold Epub.drop_cover.
  apply respects_bind; [apply respects_unlink_p | intros _].
  apply respects_bind; [apply respects_exists | intros there].
  destruct there; [|apply respects_ret].
  apply respects_bind; [apply respects_read | intros data].
  apply respects_bind; [apply respects_lift | intros soup].
  apply respects_bind; [apply respects_lift | intros data'].
  apply respects_write. exact I.
Qed.

(** C7, as amended.  A run of [optimize_epub] that returns has removed
    the temporary folder it made, and leaves the folders under
    [TMP_FOLDER] as they were; a run in which a step raises leaves its
    temporary folder behind. *)
Theorem optimize_epub_tmp_folder (src : option (list (unicode * list N)))
    (dst : unicode) (w : world) :
  match optimize_epub src dst w with
  | (Returned tmpd, w') =>
      tmpd = fresh (dom (tmp_folders w)) /\ tmp_folders w' = tmp_folders w
  | (Raised, w') =>
      fresh (dom (tmp_folders w)) ∈ dom (tmp_folders w')
      /\ delete (fresh (dom (tmp_folders w))) (tmp_folders w') = tmp_folders w
  end.
Proof.
  set (tmpd := fresh (dom (tmp_folders w))).
  assert (tmp_folders w !! tmpd = None) as Hfresh.
  { apply not_elem_of_dom, is_fresh. }
  set (w1 := World (<[tmpd := ∅]> (tmp_folders w)) (trace w)).
  assert (forall w', step_in tmpd (fun _ => True) w1 w' ->
            tmpd ∈ dom (tmp_folders w')
            /\ delete tmpd (tmp_folders w') = tmp_folders w) as Hleft.
  { intros w' (_ & Hd & Hm). split.
    - apply Hm. simpl. rewrite dom_insert_L. set_solver.
    - rewrite Hd. simpl. rewrite delete_insert_eq. apply delete_id, Hfresh. }
  unfold Epub.optimize_epub. rewrite bind_unfold.
  change (mkdtemp w) with (Returned tmpd, w1).
  cbv beta iota. rewrite bind_unfold.
  destruct src as [zf|].
  2:{ apply Hleft, step_in_refl. }
  change (lift (Some zf) w1) with (Returned zf, w1). cbv beta iota.
  rewrite bind_unfold.
  pose proof (respects_extractall tmpd (fun _ => True) zf w1) as H2.
  destruct (extractall tmpd zf w1) as [[[]|] w2] eqn:E2; simpl in H2.
  2:{ apply Hleft, H2. }
  rewrite bind_unfold.
  pose proof (respects_for_zipped_files tmpd (length zf.*1) zf.*1 0 false w2) as H3.
  destruct (for_zipped_files (length zf.*1) tmpd zf.*1 0 false w2)
    as [[[zipped_files remove_cover]|] w3]; simpl in H3.
  2:{ apply Hleft. eapply step_in_trans; eassumption. }
  rewrite bind_unfold.
  assert (respects (step_in tmpd (fun _ => True))
            (if remove_cover then drop_cover tmpd else mret ())) as H4.
  { destruct remove_cover; [apply respects_drop_cover | apply respects_ret]. }
  specialize (H4 w3).
  destruct ((if remove_cover then drop_cover tmpd else mret ()) w3)
    as [[[]|] w4]; simpl in H4.
  2:{ apply Hleft. eapply step_in_trans; [|exact H4].
      eapply step_in_trans; eassumption. }
  simpl. split; [reflexivity|].
  destruct (Hleft w4) as [_ Hd]; [|exact Hd].
  eapply step_in_trans; [|exact H4]. eapply step_in_trans; eassumption.
Qed.

End PatcherFacts.

(** C7 as stated fails.  On an archive that [zipfile.ZipFile] cannot
    open, and on [epub_page] with its page read as one without a body,
    so that the patch of the page raises, the run raises and folder 0,
    made for the run, is still there. *)
Lemma failed_patch_leaves_folder :
  let patch :=
    optimize_epub (fun _ => Some page_bodiless) (fun _ _ => Some [0])
      (fun _ => Some (tag "div" []))
      (fun _ => Some ncx_license) (fun _ => Some [0]) (fun _ => true) emma in
  let unreadable := patch None (u "out.epub") (World ∅ []) in
  let bodiless := patch (Some epub_page) (u "out.epub") (World ∅ []) in
  dom (tmp_folders (World ∅ [])) = ∅
  /\ unreadable.1 = Raised
  /\ dom (tmp_folders unreadable.2) = {[ 0%nat ]}
  /\ bodiless.1 = Raised
  /\ dom (tmp_folders bodiless.2) = {[ 0%nat ]}.
Proof. vm_compute. repeat split. Qed.

Lemma patched_archive_removes_folder :
  let run :=
    optimize_epub (fun _ => Some page_titled) (fun _ _ => Some [0])
      (fun _ => Some (tag "div" []))
      (fun _ => Some ncx_license) (fun _ => Some [0]) (fun _ => true) emma
      (Some epub_cover) (u "out.epub") (World ∅ []) in
  run.1 = Returned 0%nat
  /\ tmp_folders run.2 = ∅
  /\ trace run.2
     = [ Written (u "11/b.html"); Pngquant (u "11/c.png"); Advdef (u "11/c.png");
         Zip_stored (u "out.epub") [u "mimetype"];
         Zip_deflated (u "out.epub") [u "11/a.html"; u "11/b.html"; u "11/c.png"] ].
Proof. vm_compute. repeat split. Qed.

Lemma image_not_markup (fname : unicode) :
  ext fname ∈ [u ".png"; u ".jpeg"; u ".jpg"; u ".gif"] ->
  bool_decide (ext fname ∈ [u ".htm"; u ".html"]) = false
  /\ bool_decide (ext fname = u ".ncx") = false.
Proof.
  rewrite !elem_of_cons, elem_of_nil.
  intros [-> | [-> | [-> | [-> | []]]]]; split; reflexivity.
Qed.

Lemma seq_returns {A B : Type} (m : M A) (k : M B) (w w' : world) (x : B) :
  (m ≫= fun _ => k) w = (Returned x, w') ->
  exists w1, k w1 = (Returned x, w').
Proof.
  rewrite bind_unfold. destruct (m w) as [[a|] w1]; [eauto | discriminate].
Qed.

Lemma list_remove_middle (fname : unicode) (done rest : list unicode) :
  fname ∉ done -> list_remove fname (done ++ fname :: rest) = done ++ rest.
Proof.
  induction done as [|f done IH]; intros Hnot; simpl.
  - rewrite bool_decide_eq_true_2 by reflexivity. reflexivity.
  - apply not_elem_of_cons in Hnot as [Hne Hnot].
    rewrite bool_decide_eq_false_2 by congruence.
    rewrite IH by exact Hnot. reflexivity.
Qed.

Section SkipFacts.

Variable parse : list N -> option node.
Variable encode : bool -> node -> option (list N).
Variable render_infobox : book -> option node.
Variable parse_xml : list N -> option node.
Variable encode_xml : node -> option (list N).
Variable is_bad_cover : unicode -> bool.
Variable b : book.

Abbreviation entry_body' :=
  (entry_body parse encode render_infobox parse_xml encode_xml is_bad_cover b).
Abbreviation for_zipped_files' :=
  (for_zipped_files parse encode render_infobox parse_xml encode_xml is_bad_cover b).

Abbreviation flagged := (flagged is_bad_cover).

(** A run of the loop body that returns left the list as it was, or
    took its entry, a flagged cover, off the list and did nothing
    else. *)
Lemma entry_body_returns (tmpd : nat) (fname : unicode)
    (zipped_files zipped_files' : list unicode)
    (remove_cover remove_cover' : bool) (w w' : world) :
  entry_body' tmpd fname zipped_files remove_cover w
  = (Returned (zipped_files', remove_cover'), w') ->
  zipped_files' = zipped_files
  \/ (zipped_files' = list_remove fname zipped_files /\ w' = w /\ flagged fname).
Proof.
  unfold Epub.entry_body. intros Hrun.
  destruct (bool_decide (ext fname ∈ [u ".png"; u ".jpeg"; u ".jpg"; u ".gif"])) eqn:Himg.
  - apply bool_decide_eq_true_1 in Himg.
    destruct (image_not_markup fname Himg) as [Hhtm Hncx].
    rewrite Hhtm, Hncx in Hrun.
    destruct (endswith fname (u "cover.jpg") && is_bad_cover fname) eqn:Hflag.
    + right. apply andb_true_iff in Hflag.
      injection Hrun as <- <- <-. auto.
    + left. rewrite bind_unfold in Hrun.
      destruct ((optimize_image fname;; mret (zipped_files, remove_cover)) w)
        as [[[zf rc]|] w1] eqn:Hopt; [|discriminate].
      apply seq_returns in Hopt as [w0 Hopt]. injection Hopt as <- <- <-.
      injection Hrun as <- <- <-. reflexivity.
  - left. rewrite bind_unfold in Hrun. cbv beta iota in Hrun.
    change ((mret (zipped_files, remove_cover) : M _) w)
      with (Returned (zipped_files, remove_cover), w) in Hrun.
    cbv beta iota in Hrun.
    apply seq_returns in Hrun as [w1 Hrun].
    apply seq_returns in Hrun as [w2 Hrun].
    injection Hrun as <- <- <-. reflexivity.
Qed.

(** The loop, from any index on: the entries passed stay where they
    are, and the rest is gone through as [passes] says. *)
Lemma for_zipped_files_passes (tmpd fuel : nat) (done rest : list unicode)
    (remove_cover : bool) (w : world)
    (zipped_files' : list unicode) (remove_cover' : bool) (w' : world) :
  (length rest <= fuel)%nat ->
  NoDup (done ++ rest) ->
  for_zipped_files' fuel tmpd (done ++ rest) (length done) remove_cover w
  = (Returned (zipped_files', remove_cover'), w') ->
  exists kept evs,
    zipped_files' = done ++ kept
    /\ trace w' = trace w ++ evs
    /\ passes flagged rest kept evs.
Proof.
  revert done rest remove_cover w.
  induction fuel as [|fuel IH]; intros done rest remove_cover w Hlen Hnodup Hrun.
  - destruct rest; [|simpl in Hlen; lia].
    injection Hrun as <- <- <-. exists [], [].
    rewrite !app_nil_r. repeat split. constructor.
  - destruct rest as [|f rest].
    + simpl in Hrun. rewrite lookup_ge_None_2 in Hrun
        by (rewrite length_app; simpl; lia).
      injection Hrun as <- <- <-. exists [], [].
      rewrite !app_nil_r. repeat split. constructor.
    + simpl in Hrun. rewrite list_lookup_middle in Hrun by reflexivity.
      rewrite bind_unfold in Hrun.
      pose proof (respects_entry_body parse encode render_infobox parse_xml
                    encode_xml is_bad_cover b tmpd f (done ++ f :: rest)
                    remove_cover w) as ((evs_f & Htr & Habout) & _).
      destruct (entry_body' tmpd f (done ++ f :: rest) remove_cover w)
        as [[[zf rc]|] w1] eqn:Hbody; [|discriminate].
      simpl in Htr.
      apply NoDup_app in Hnodup as (Hdone & Hdisj & Hrest).
      apply NoDup_cons in Hrest as [Hf Hrest].
      destruct (entry_body_returns _ _ _ _ _ _ _ _ Hbody)
        as [-> | (-> & -> & Hflag)].
      * replace (S (length done)) with (length (done ++ [f])) in Hrun
          by (rewrite length_app; simpl; lia).
        replace (done ++ f :: rest) with ((done ++ [f]) ++ rest) in Hrun
          by (rewrite <- app_assoc; reflexivity).
        apply IH in Hrun as (kept & evs & -> & Htr' & Hpass).
        -- exists (f :: kept), (evs_f ++ evs).
           rewrite <- app_assoc. split; [reflexivity|].
           split; [rewrite Htr', Htr, app_assoc; reflexivity|].
           constructor; assumption.
        -- simpl in Hlen. lia.
        -- rewrite <- app_assoc. simpl. apply NoDup_app.
           split; [exact Hdone|]. split; [exact Hdisj|].
           apply NoDup_cons. auto.
      * rewrite list_remove_middle in Hrun.
        2:{ intros Hin. apply (Hdisj f Hin). left. }
        destruct rest as [|d rest].
        -- destruct fuel; simpl in Hrun;
             [|rewrite lookup_ge_None_2 in Hrun by (rewrite length_app; simpl; lia)];
             injection Hrun as <- <- <-; exists [], [];
             rewrite !app_nil_r; repeat split; constructor; exact Hflag.
        -- replace (S (length done)) with (length (done ++ [d])) in Hrun
             by (rewrite length_app; simpl; lia).
           replace (done ++ d :: rest) with ((done ++ [d]) ++ rest) in Hrun
             by (rewrite <- app_assoc; reflexivity).
           apply NoDup_cons in Hrest as [Hd Hrest].
           apply IH in Hrun as (kept & evs & -> & Htr' & Hpass).
           ++ exists (d :: kept), evs.
              rewrite <- app_assoc. split; [reflexivity|].
              split; [exact Htr'|]. constructor; assumption.
           ++ simpl in Hlen. lia.
           ++ apply NoDup_app. split; [apply NoDup_app|].
              ** split; [exact Hdone|]. split; [|apply NoDup_singleton].
                 intros x Hx Hxd. apply list_elem_of_singleton in Hxd as ->.
                 apply (Hdisj d Hx). right. left.
              ** split; [|exact Hrest].
                 intros x Hx Hxr. apply elem_of_app in Hx as [Hx|Hx].
                 --- apply (Hdisj x Hx). right. right. exact Hxr.
                 --- apply list_elem_of_singleton in Hx as ->. exact (Hd Hxr).
Qed.

End SkipFacts.

Lemma passes_within (flagged : unicode -> Prop)
    (rest kept : list unicode) (evs : list event) :
  passes flagged rest kept evs ->
  (forall f, f ∈ kept -> f ∈ rest)
  /\ Forall (fun ev => exists f, f ∈ rest /\ event_entry ev = Some f) evs.
Proof.
  induction 1 as [|f rest kept evs_f evs Hf _ [IHk IHe]| |f d rest kept evs _ _ [IHk IHe]].
  - split; [tauto | constructor].
  - split.
    + intros x Hx. apply elem_of_cons in Hx as [->|Hx]; [left | right; auto].
    + apply Forall_app. split.
      * eapply Forall_impl; [exact Hf|]. intros ev Hev. exists f. split; [left | exact Hev].
      * eapply Forall_impl; [exact IHe|]. intros ev (x & Hx & Hev).
        exists x. split; [right; exact Hx | exact Hev].
  - split; [intros x Hx; inversion Hx | constructor].
  - split.
    + intros x Hx. apply elem_of_cons in Hx as [->|Hx];
        [right; left | right; right; auto].
    + eapply Forall_impl; [exact IHe|]. intros ev (x & Hx & Hev).
      exists x. split; [right; right; exact Hx | exact Hev].
Qed.

(** An entry that is gone at the end was a flagged cover, and the
    entry behind it is still there, with no event about it. *)
Lemma passes_skips (flagged : unicode -> Prop)
    (rest kept : list unicode) (evs : list event) :
  passes flagged rest kept evs ->
  NoDup rest ->
  forall pre c nxt post,
    rest = pre ++ c :: nxt :: post ->
    c ∉ kept ->
    flagged c /\ nxt ∈ kept
    /\ Forall (fun ev => event_entry ev <> Some nxt) evs.
Proof.
  induction 1 as [|f rest kept evs_f evs Hf Hpass IH|f Hflag|f d rest kept evs Hflag Hpass IH];
    intros Hnodup pre c nxt post Hrest Hgone.
  - destruct pre; discriminate.
  - apply NoDup_cons in Hnodup as [Hfresh Hnodup].
    destruct pre as [|f' pre]; simplify_eq/=.
    + exfalso. apply Hgone. left.
    + destruct (IH Hnodup pre c nxt post eq_refl) as (Hc & Hn & He).
      { intros Hin. apply Hgone. right. exact Hin. }
      split; [exact Hc|]. split; [right; exact Hn|].
      apply Forall_app. split; [|exact He].
      eapply Forall_impl; [exact Hf|]. intros ev Hev Hev'.
      rewrite Hev in Hev'. injection Hev' as ->.
      apply Hfresh. apply elem_of_app. right. right. left.
  - destruct pre as [|? [|? ?]]; discriminate.
  - apply NoDup_cons in Hnodup as [Hfresh Hnodup].
    apply NoDup_cons in Hnodup as [Hdfresh Hnodup].
    destruct pre as [|f' [|d' pre]]; simplify_eq/=.
    + split; [exact Hflag|]. split; [left|].
      destruct (passes_within _ _ _ _ Hpass) as [_ He].
      eapply Forall_impl; [exact He|]. intros ev (x & Hx & Hev) Hev'.
      rewrite Hev in Hev'. injection Hev' as ->. exact (Hdfresh Hx).
    + exfalso. apply Hgone. left.
    + destruct (IH Hnodup pre c nxt post eq_refl) as (Hc & Hn & He).
      { intros Hin. apply Hgone. right. exact Hin. }
      split; [exact Hc|]. split; [right; exact Hn | exact He].
Qed.

(** C10.  Take an archive with distinct entry names and a run of the
    loop over its entries that comes to its end.  An entry [c] that is
    not in the list for the repack any more is a bad cover
    ([...cover.jpg], flagged by [is_bad_cover]), and the entry [nxt]
    behind it in the archive was passed over: no command was run for
    it and it was not written, yet it is in the list and among the
    names given to [zip]. *)
Theorem bad_cover_skips_next (parse : list N -> option node)
    (encode : bool -> node -> option (list N)) (render_infobox : book -> option node)
    (parse_xml : list N -> option node) (encode_xml : node -> option (list N))
    (is_bad_cover : unicode -> bool) (b : book)
    (names pre post : list unicode) (c nxt : unicode) (tmpd : nat)
    (w w' : world) (zipped_files' : list unicode) (remove_cover' : bool) :
  NoDup names ->
  names = pre ++ c :: nxt :: post ->
  for_zipped_files parse encode render_infobox parse_xml encode_xml is_bad_cover b
    (length names) tmpd names 0 false w
  = (Returned (zipped_files', remove_cover'), w') ->
  c ∉ zipped_files' ->
  flagged is_bad_cover c
  /\ nxt ∈ zipped_files'
  /\ nxt ∈ repacked zipped_files'
  /\ exists evs, trace w' = trace w ++ evs
                 /\ Forall (fun ev => event_entry ev <> Some nxt) evs.
Proof.
  intros Hnodup Hnames Hrun Hgone.
  destruct (for_zipped_files_passes parse encode render_infobox parse_xml encode_xml
              is_bad_cover b tmpd (length names) [] names false w
              zipped_files' remove_cover' w' (le_n _) Hnodup Hrun)
    as (kept & evs & Hkept & Htr & Hpass).
  simpl in Hkept. subst zipped_files'.
  destruct (passes_skips _ _ _ _ Hpass Hnodup pre c nxt post Hnames Hgone)
    as (Hflag & Hnxt & Hevs).
  split; [exact Hflag|]. split; [exact Hnxt|]. split; [|eauto].
  unfold repacked.
  destruct (decide (nxt = u "mimetype")) as [->|Hne]; [left|].
  right. apply list_elem_of_filter. split; assumption.
Qed.

Lemma bad_cover_skips_next_witness :
  let run :=
    for_zipped_files (fun _ => Some page_titled) (fun _ _ => Some [0])
      (fun _ => Some (tag "div" []))
      (fun _ => Some ncx_license) (fun _ => Some [0]) (fun _ => true) emma
      5 0 epub_cover.*1 0 false
      (World {[ 0%nat := list_to_map epub_cover ]} []) in
  run.1 = Returned ([u "mimetype"; u "11/a.html"; u "11/b.html"; u "11/c.png"], true)
  /\ trace run.2
     = [ Written (u "11/b.html"); Pngquant (u "11/c.png"); Advdef (u "11/c.png") ]
  /\ u "11/a.html" ∈ repacked [u "mimetype"; u "11/a.html"; u "11/b.html"; u "11/c.png"].
Proof.
  split; [vm_compute; reflexivity|]. split; [vm_compute; reflexivity|].
  refine (proj1 (proj2 (proj2
    (bad_cover_skips_next (fun _ => Some page_titled) (fun _ _ => Some [0])
       (fun _ => Some (tag "div" []))
       (fun _ => Some ncx_license) (fun _ => Some [0]) (fun _ => true) emma
       epub_cover.*1 [u "mimetype"] [u "11/b.html"; u "11/c.png"]
       (u "11/cover.jpg") (u "11/a.html") 0
       (World {[ 0%nat := list_to_map epub_cover ]} []) _ _ true
       _ eq_refl _ _)))).
  - apply (bool_decide_unpack _). vm_compute. exact I.
  - vm_compute. reflexivity.
  - apply (bool_decide_unpack _). vm_compute. exact I.
Defined.


(** * Further properties *)

(** ** Numbers in file names *)

Lemma utf8_decode_ascii (bs : list N) :
  Forall (fun c => c < 128) bs -> utf8_decode bs = bs.
Proof.
  induction 1 as [|c bs Hc _ IH]; [reflexivity|].
  simpl. destruct (N.ltb_spec c 128); [|lia]. rewrite IH. reflexivity.
Qed.

Lemma bytes_of_inj (s t : string) : bytes_of s = bytes_of t -> s = t.
Proof.
  revert t. induction s as [|a s IH]; intros [|a' t] H; simpl in H;
    try discriminate; [reflexivity|].
  injection H as Ha Hs. f_equal; [|apply IH, Hs].
  rewrite <- (ascii_N_embedding a), <- (ascii_N_embedding a'), Ha. reflexivity.
Qed.

Lemma pretty_N_char_digit (x : N) :
  48 <= N_of_ascii (pretty_N_char x) <= 57.
Proof.
  unfold pretty_N_char.
  repeat match goal with
         | |- context [match ?y with _ => _ end] => destruct y
         end; vm_compute; split; discriminate.
Qed.

Lemma pretty_N_go_digits (x : N) (s : string) :
  Forall (fun c => 48 <= c <= 57) (bytes_of s) ->
  Forall (fun c => 48 <= c <= 57) (bytes_of (pretty_N_go x s)).
Proof.
  revert s. induction (N.lt_wf_0 x) as [x _ IH]; intros s Hs.
  destruct (decide (x = 0)) as [->|Hx]; [exact Hs|].
  rewrite pretty_N_go_step by lia.
  apply IH; [apply N.div_lt; lia|].
  simpl. constructor; [apply pretty_N_char_digit | exact Hs].
Qed.

Lemma pretty_N_digits (x : N) :
  Forall (fun c => 48 <= c <= 57) (bytes_of (pretty x)).
Proof.
  unfold pretty, pretty_N. case_decide.
  - change (bytes_of "0") with [48].
    constructor; [split; discriminate | constructor].
  - apply pretty_N_go_digits. constructor.
Qed.

(** The characters of a number are digits, behind a minus sign at
    most. *)
Lemma pretty_Z_chars (n : Z) :
  Forall (fun c => c = 45 \/ 48 <= c <= 57) (bytes_of (pretty n)).
Proof.
  destruct n as [|p|p]; unfold pretty, pretty_Z.
  - change (bytes_of "0") with [48].
    constructor; [right; split; discriminate | constructor].
  - eapply Forall_impl; [apply (pretty_N_digits (Npos p))|]. auto.
  - change (bytes_of ("-" +:+ pretty p)) with (45 :: bytes_of (pretty (Npos p))).
    constructor; [left; reflexivity|].
    eapply Forall_impl; [apply (pretty_N_digits (Npos p))|]. auto.
Qed.

Lemma format_int_bytes (n : Z) : format_int n = bytes_of (pretty n).
Proof.
  unfold format_int, u. apply utf8_decode_ascii.
  eapply Forall_impl; [apply pretty_Z_chars|].
  intros c [->|[_ Hc]]; lia.
Qed.

Lemma format_int_chars (n : Z) :
  Forall (fun c => c = 45 \/ 48 <= c <= 57) (format_int n).
Proof. rewrite format_int_bytes. apply pretty_Z_chars. Qed.

Lemma format_int_inj (m n : Z) : format_int m = format_int n -> m = n.
Proof.
  rewrite !format_int_bytes. intros H.
  apply bytes_of_inj in H. exact (pretty_Z_inj _ _ H).
Qed.

Lemma format_int_without (c : N) (n : Z) :
  c <> 45 -> ~ 48 <= c <= 57 -> c ∉ format_int n.
Proof.
  intros Hdash Hdigit Hin.
  pose proof (format_int_chars n) as Hall.
  rewrite Forall_forall in Hall. destruct (Hall c Hin); [congruence | tauto].
Qed.

(** ** File names *)

Lemma startswith_prefix (s p : unicode) :
  startswith s p = true <-> exists t, s = p ++ t.
Proof.
  revert s. induction p as [|x p IH]; intros s.
  - split; [intros _; exists s; reflexivity | destruct s; reflexivity].
  - destruct s as [|y s]; simpl.
    + split; [discriminate | intros [t Ht]; discriminate].
    + rewrite andb_true_iff, N.eqb_eq, IH. split.
      * intros [-> [t ->]]. exists t. reflexivity.
      * intros [t Ht]. injection Ht as -> ->. eauto.
Qed.

Lemma app_cons_first (c : N) (l1 l2 r1 r2 : unicode) :
  c ∉ l1 -> c ∉ l2 -> l1 ++ c :: r1 = l2 ++ c :: r2 -> l1 = l2 /\ r1 = r2.
Proof.
  revert l2. induction l1 as [|x l1 IH]; intros [|y l2] H1 H2 Heq; simpl in Heq.
  - injection Heq as ->. auto.
  - injection Heq as -> _. exfalso. apply H2. left.
  - injection Heq as -> _. exfalso. apply H1. left.
  - injection Heq as -> Heq.
    apply not_elem_of_cons in H1 as [_ H1]. apply not_elem_of_cons in H2 as [_ H2].
    destruct (IH l2 H1 H2 Heq) as [-> ->]. auto.
Qed.

Lemma startswith_nil (s : unicode) : startswith s [] = true.
Proof. destruct s; reflexivity. Qed.

Lemma replace_slash_free (s : unicode) :
  47 ∉ replace_from slash [45] 0 s.
Proof.
  induction s as [|c s IH]; [apply not_elem_of_nil|].
  change (replace_from slash [45] 0 (c :: s))
    with (if (47 =? c) && startswith s []
          then 45 :: replace_from slash [45] 0 s
          else c :: replace_from slash [45] 0 s).
  rewrite startswith_nil, andb_true_r.
  destruct (N.eqb_spec 47 c) as [<-|Hc].
  - apply not_elem_of_cons. split; [discriminate | exact IH].
  - apply not_elem_of_cons. split; [exact Hc | exact IH].
Qed.

Lemma not_elem_of_take (c : N) (n : nat) (s : unicode) : c ∉ s -> c ∉ take n s.
Proof. intros Hs Hin. apply Hs. exact (subseteq_take n s c Hin). Qed.

(** X1.  The name a book gets in the file system has no [/] in it and
    at most 230 characters, whatever the title. *)
Theorem book_name_for_fs_safe (b : book) :
  (47 ∉ book_name_for_fs b) /\ (length (book_name_for_fs b) <= 230)%nat.
Proof.
  unfold book_name_for_fs. split.
  - apply not_elem_of_take. apply replace_slash_free.
  - rewrite length_take. lia.
Qed.

(** X2.  Two names of article or cover pages that are the same belong
    to books with the same id, and for one book to one of its two
    pages: no page of a book overwrites a page of another, nor the cover
    page the article. *)
Theorem article_name_for_inj (b1 b2 : book) (cover1 cover2 : bool) :
  article_name_for b1 cover1 = article_name_for b2 cover2 ->
  book_id b1 = book_id b2 /\ (b1 = b2 -> cover1 = cover2).
Proof.
  assert (forall b c,
            article_name_for b c
            = ((book_name_for_fs b ++ (if c then u "_cover" else []))
               ++ 46 :: format_int (book_id b)) ++ u ".html") as Hshape.
  { intros b c. unfold article_name_for. rewrite <- !app_assoc. reflexivity. }
  rewrite !Hshape. intros Heq.
  apply app_inv_tail in Heq.
  assert (forall n, 46 ∉ format_int n) as Hdot.
  { intros n. apply format_int_without; [discriminate|].
    intros [H _]. apply H. reflexivity. }
  assert (forall x y f g, 46 ∉ f -> 46 ∉ g -> x ++ 46 :: f = y ++ 46 :: g -> x = y /\ f = g)
    as Hlast.
  { intros x y f g Hf Hg H.
    pose proof (rsplit1_last 46 x f Hf) as Hx. rewrite H in Hx.
    rewrite (rsplit1_last 46 y g Hg) in Hx. injection Hx as -> ->. auto. }
  apply Hlast in Heq as [Hname Hid]; [|apply Hdot..].
  split; [apply format_int_inj, Hid|].
  intros ->. apply app_inv_head in Hname.
  destruct cover1, cover2; try reflexivity; discriminate.
Qed.

Lemma article_name_for_inj_witness :
  article_name_for emma false = article_name_for emma false
  /\ book_id emma = book_id emma /\ (emma = emma -> false = false).
Proof.
  split; [reflexivity|].
  exact (article_name_for_inj emma emma false false eq_refl).
Defined.

(** X3.  The companion files of a book are picked by the prefix
    [{id}_]: a file [{id'}_...] of a book with another id is never
    among them, and neither is the [{id'}.{format}] file of any book,
    the format having no underscore. *)
Theorem companion_files_of_other_book (b b' : book) (cached_files : list unicode)
    (rest format : unicode) :
  (book_id b <> book_id b' ->
   format_int (book_id b') ++ underscore ++ rest ∉ companion_files b cached_files)
  /\ (95 ∉ format -> fname_for b' format ∉ companion_files b cached_files).
Proof.
  assert (forall n, 95 ∉ format_int n) as Hus.
  { intros n. apply format_int_without; [discriminate|].
    intros [_ H]. apply H. reflexivity. }
  unfold companion_files, underscore. split.
  - intros Hne Hin. apply list_elem_of_filter in Hin as [Hpre _].
    apply startswith_prefix in Hpre as [t Ht].
    rewrite <- !app_assoc in Ht. simpl in Ht.
    apply app_cons_first in Ht as [Hid _]; [|apply Hus..].
    apply Hne. symmetry. apply format_int_inj, Hid.
  - intros Hfmt Hin. apply list_elem_of_filter in Hin as [Hpre _].
    apply startswith_prefix in Hpre as [t Ht].
    unfold fname_for in Ht.
    assert (95 ∈ format_int (book_id b') ++ u "." ++ format) as Hin.
    { rewrite Ht, <- app_assoc. apply elem_of_app. right. left. }
    apply elem_of_app in Hin as [Hin|Hin]; [exact (Hus _ Hin)|].
    apply elem_of_app in Hin as [Hin|Hin]; [|exact (Hfmt Hin)].
    apply list_elem_of_singleton in Hin. discriminate.
Qed.

(** ** More on the boilerplate stripper *)

(** X4.  When no marker of the table is in the text of the body, the
    stripper gives the body back as it is. *)
Theorem strip_body_no_marker (contents : list node) :
  Forall (fun pair => present (text_of contents) pair = false) patterns ->
  strip_body contents = contents.
Proof.
  intros Hnone. unfold strip_body, strip_with.
  destruct (is_encapsulated_in_div contents); [reflexivity|].
  change (scan_patterns patterns contents = contents).
  apply scan_patterns_none, Hnone.
Qed.

Lemma strip_body_no_marker_witness : strip_body page_plain = page_plain.
Proof.
  exact (strip_body_no_marker page_plain ltac:(repeat constructor)).
Defined.

Lemma strings_of_delete (contents : list node) (i : nat) (c : node) :
  contents !! i = Some c -> is_NavigableString c = false ->
  strings_of (delete i contents) = strings_of contents.
Proof.
  revert i. induction contents as [|d contents IH]; intros [|i] Hi Hc;
    simpl in *; try discriminate.
  - injection Hi as ->. unfold strings_of. rewrite filter_cons.
    rewrite decide_False by congruence. reflexivity.
  - unfold strings_of in *. rewrite !filter_cons, (IH i Hi Hc). reflexivity.
Qed.

Lemma for_children_keeps {St : Type} (body : St -> node -> St * bool)
    (fuel : nat) (contents : list node) (i : nat) (st : St) :
  (forall st c, is_NavigableString c = true -> (body st c).2 = false) ->
  (for_children body fuel contents i st).1 `sublist_of` contents
  /\ strings_of (for_children body fuel contents i st).1 = strings_of contents.
Proof.
  intros Hstr. revert contents i st.
  induction fuel as [|fuel IH]; intros contents i st; simpl; [split; reflexivity|].
  destruct (contents !! i) as [c|] eqn:Hi; [|split; reflexivity].
  destruct (body st c) as [st' decomposed] eqn:Hb.
  destruct decomposed; [|apply IH].
  destruct (IH (delete i contents) (S i) st') as [Hsub Hstrings].
  split.
  - etransitivity; [exact Hsub | apply sublist_delete].
  - rewrite Hstrings. apply (strings_of_delete _ _ c Hi).
    destruct (is_NavigableString c) eqn:Hc; [|reflexivity].
    specialize (Hstr st c Hc). rewrite Hb in Hstr. discriminate.
Qed.

(** X5.  Whatever the body, the stripper only takes top-level tags
    away: what it gives back is the body with some children left out,
    in the same order, and all top-level strings are still there. *)
Theorem strip_body_only_deletes_tags (contents : list node) :
  strip_body contents `sublist_of` contents
  /\ strings_of (strip_body contents) = strings_of contents.
Proof.
  assert (forall body remove,
            (forall st c, is_NavigableString c = true -> (body st c).2 = false) ->
            run_loop body remove contents `sublist_of` contents
            /\ strings_of (run_loop body remove contents) = strings_of contents) as Hloop.
  { intros body remove Hstr. apply for_children_keeps, Hstr. }
  unfold strip_body, strip_with.
  destruct (is_encapsulated_in_div contents); [split; reflexivity|].
  cbn [negb]. generalize patterns as table.
  induction table as [|[s e] table IH]; simpl; [split; reflexivity|].
  destruct (negb (contains s (text_of contents)) && negb (contains e (text_of contents)));
    [exact IH|].
  unfold remove_boilerplate.
  destruct (contains s (text_of contents) && contains e (text_of contents)).
  { apply Hloop. intros st c Hc. unfold both_body. rewrite Hc. reflexivity. }
  destruct (contains s (text_of contents)).
  { apply Hloop. intros st c Hc. unfold start_body. rewrite Hc. reflexivity. }
  destruct (contains e (text_of contents)); [|split; reflexivity].
  apply Hloop. intros st c Hc. unfold end_body. rewrite Hc. reflexivity.
Qed.

(** X6.  In every loop over [body.children], when the loop body
    decomposes a child, the child right behind it is not looked at:
    it stays, marker or not, and the loop goes on behind it with the
    loop variables as they were. *)
Theorem run_loop_passes_over (body : bool -> node -> bool * bool)
    (remove remove' : bool) (c d : node) (rest : list node) :
  body remove c = (remove', true) ->
  run_loop body remove (c :: d :: rest) = d :: run_loop body remove' rest.
Proof.
  intros Hb. rewrite !run_loop_sweep. simpl. rewrite Hb.
  destruct (sweep body rest remove'). reflexivity.
Qed.

Lemma run_loop_passes_over_witness :
  run_loop (both_body (u "*** START") (u "*** END")) true
    [para "header"; para "*** START ***"; para "chapter"]
  = para "*** START ***"
    :: run_loop (both_body (u "*** START") (u "*** END")) true [para "chapter"].
Proof.
  exact (run_loop_passes_over (both_body (u "*** START") (u "*** END")) true true
           (para "header") (para "*** START ***") [para "chapter"] eq_refl).
Defined.

Lemma remove_boilerplate_start_only_witness :
  remove_boilerplate (u "*** START OF THIS PROJECT GUTENBERG EBOOK")
    (u "*** START: FULL LICENSE ***") page_this
  = [nl; nl; para "chapter"; nl;
     para "*** END OF THIS PROJECT GUTENBERG EBOOK EMMA ***"; nl; para "license"].
Proof.
  exact (remove_boilerplate_start_only (u "*** START OF THIS PROJECT GUTENBERG EBOOK")
           (u "*** START: FULL LICENSE ***") page_this eq_refl eq_refl eq_refl).
Defined.

Lemma remove_boilerplate_end_only_witness :
  remove_boilerplate (u "*** START OF THE PROJECT GUTENBERG EBOOK")
    (u "*** END OF THE PROJECT GUTENBERG EBOOK") page_end_only
  = [para "chapter"; nl; nl].
Proof.
  exact (remove_boilerplate_end_only (u "*** START OF THE PROJECT GUTENBERG EBOOK")
           (u "*** END OF THE PROJECT GUTENBERG EBOOK") page_end_only
           eq_refl eq_refl eq_refl).
Defined.

(** ** Rewriting and stripping together *)

Lemma get_text_map_tags (f : unicode -> gmap unicode unicode -> gmap unicode unicode)
    (e : node) :
  get_text (map_tags f e) = get_text e.
Proof.
  induction e as [s|nm attrs cs IH] using node_ind_contents; [reflexivity|].
  simpl. induction IH as [|c cs Hc _ IHcs]; [reflexivity|].
  simpl. rewrite Hc, IHcs. reflexivity.
Qed.

Lemma is_NavigableString_map_tags
    (f : unicode -> gmap unicode unicode -> gmap unicode unicode) (e : node) :
  is_NavigableString (map_tags f e) = is_NavigableString e.
Proof. destruct e; reflexivity. Qed.

Lemma text_of_map_tags (f : unicode -> gmap unicode unicode -> gmap unicode unicode)
    (contents : list node) :
  text_of (map_tags f <$> contents) = text_of contents.
Proof.
  induction contents as [|c contents IH]; [reflexivity|].
  rewrite fmap_cons. simpl. rewrite get_text_map_tags, IH. reflexivity.
Qed.

(** A loop whose body does not tell a child from its image under [g]
    runs on the images as on the children. *)
Lemma for_children_fmap {St : Type} (body : St -> node -> St * bool)
    (g : node -> node) (fuel : nat) (contents : list node) (i : nat) (st : St) :
  (forall st c, body st (g c) = body st c) ->
  for_children body fuel (g <$> contents) i st
  = (g <$> (for_children body fuel contents i st).1,
     (for_children body fuel contents i st).2).
Proof.
  intros Hg. revert contents i st.
  induction fuel as [|fuel IH]; intros contents i st; simpl; [reflexivity|].
  rewrite list_lookup_fmap.
  destruct (contents !! i) as [c|]; simpl; [|reflexivity].
  rewrite Hg. destruct (body st c) as [st' decomposed].
  destruct decomposed; [|apply IH].
  rewrite <- list_fmap_delete. apply IH.
Qed.

(** X9.  Stripping the boilerplate and rewriting the attributes of the
    tags (the links and the images) do not get in each other's way:
    the body stripped after the rewriting is the stripped body
    rewritten. *)
Theorem strip_body_map_tags
    (f : unicode -> gmap unicode unicode -> gmap unicode unicode)
    (contents : list node) :
  strip_body (List.map (map_tags f) contents)
  = List.map (map_tags f) (strip_body contents).
Proof.
  change (strip_body (map_tags f <$> contents) = map_tags f <$> strip_body contents).
  assert (forall body remove,
            (forall st c, body st (map_tags f c) = body st c) ->
            run_loop body remove (map_tags f <$> contents)
            = map_tags f <$> run_loop body remove contents) as Hloop.
  { intros body remove Hg. unfold run_loop.
    rewrite length_fmap, for_children_fmap by exact Hg. reflexivity. }
  assert (is_encapsulated_in_div (map_tags f <$> contents)
          = is_encapsulated_in_div contents) as Hdiv.
  { unfold is_encapsulated_in_div. f_equal. f_equal. clear Hloop.
    induction contents as [|c contents IH]; [reflexivity|].
    rewrite fmap_cons. simpl. rewrite is_NavigableString_map_tags, IH. reflexivity. }
  unfold strip_body, strip_with. rewrite Hdiv.
  destruct (is_encapsulated_in_div contents); [reflexivity|].
  cbn [negb]. generalize patterns as table.
  induction table as [|[s e] table IH]; [reflexivity|].
  simpl. rewrite text_of_map_tags.
  destruct (negb (contains s (text_of contents)) && negb (contains e (text_of contents)));
    [exact IH|].
  unfold remove_boilerplate. rewrite text_of_map_tags.
  destruct (contains s (text_of contents) && contains e (text_of contents)).
  { apply Hloop. intros st c. unfold both_body, child_has.
    rewrite is_NavigableString_map_tags, get_text_map_tags. reflexivity. }
  destruct (contains s (text_of contents)).
  { apply Hloop. intros st c. unfold start_body, child_has.
    rewrite is_NavigableString_map_tags, get_text_map_tags. reflexivity. }
  destruct (contains e (text_of contents)); [|reflexivity].
  apply Hloop. intros st c. unfold end_body, child_has.
  rewrite is_NavigableString_map_tags, get_text_map_tags. reflexivity.
Qed.

(** ** More on the link and image rewriters *)

Lemma contains_char (c : N) (s : unicode) :
  contains [c] s = true <-> c ∈ s.
Proof.
  induction s as [|x s IH]; simpl.
  - split; [discriminate | intros H; inversion H].
  - rewrite startswith_nil, andb_true_r, orb_true_iff, N.eqb_eq, IH, elem_of_cons.
    tauto.
Qed.

Lemma contains_char_false (c : N) (s : unicode) :
  contains [c] s = false <-> c ∉ s.
Proof.
  rewrite <- contains_char. destruct (contains [c] s); split; congruence.
Qed.

(** X10.  The link rewriter is not idempotent: a link it has rewritten
    gets the prefix [{book_id}_] once more when it is rewritten
    again. *)
Theorem rewrite_href_twice (book_id : Z) (path : unicode) (anchor : option unicode) :
  hash ∉ path -> hash ∉ default [] anchor ->
  contains slash path = false ->
  forallb isspace path = false ->
  rewrite_href book_id (rewrite_href book_id (href_of path anchor))
  = href_of (format_int book_id ++ underscore
             ++ format_int book_id ++ underscore ++ path) anchor.
Proof.
  intros Hpath Hanchor Hslash Hspace.
  assert (forall p, hash ∉ p -> contains slash p = false -> forallb isspace p = false ->
            rewrite_href book_id (href_of p anchor)
            = href_of (format_int book_id ++ underscore ++ p) anchor) as Honce.
  { intros p Hp Hs Hsp. unfold rewrite_href.
    rewrite replacablement_link_cases, Hs, Hsp; [reflexivity|].
    destruct anchor; [exact Hanchor | exact Hp]. }
  assert (forall c p, c = 35 \/ c = 47 ->
            c ∉ p -> c ∉ format_int book_id ++ underscore ++ p) as Hnew.
  { intros c p Hc Hp Hin.
    apply elem_of_app in Hin as [Hin|Hin].
    - apply (format_int_without c book_id); [| |exact Hin].
      + destruct Hc as [->| ->]; discriminate.
      + destruct Hc as [->| ->]; intros [H _]; apply H; reflexivity.
    - apply elem_of_cons in Hin as [->|Hin]; [|exact (Hp Hin)].
      destruct Hc; discriminate. }
  rewrite (Honce path Hpath Hslash Hspace).
  rewrite Honce.
  - reflexivity.
  - apply Hnew; [left; reflexivity | exact Hpath].
  - apply contains_char_false.
    apply Hnew; [right; reflexivity|].
    apply contains_char_false, Hslash.
  - rewrite !forallb_app, Hspace, !andb_false_r. reflexivity.
Qed.

Lemma rewrite_href_twice_witness :
  rewrite_href 42 (rewrite_href 42 (u "chap1.html#sec2")) = u "42_42_chap1.html#sec2".
Proof.
  exact (rewrite_href_twice 42 (u "chap1.html") (Some (u "sec2"))
           ltac:(apply (bool_decide_unpack _); vm_compute; exact I)
           ltac:(apply (bool_decide_unpack _); vm_compute; exact I)
           eq_refl eq_refl).
Defined.

Lemma replace_from_skip (old new pre s : unicode) :
  replace_from old new (length pre) (pre ++ s) = replace_from old new 0 s.
Proof. induction pre as [|c pre IH]; [destruct s; reflexivity | exact IH]. Qed.

Lemma replace_prefix (old new s : unicode) :
  old <> [] -> replace old new (old ++ s) = new ++ replace old new s.
Proof.
  intros Hold. destruct old as [|c old]; [congruence|].
  unfold replace.
  change (replace_from (c :: old) new 0 ((c :: old) ++ s))
    with (if startswith ((c :: old) ++ s) (c :: old)
          then new ++ replace_from (c :: old) new (length (c :: old) - 1) (old ++ s)
          else c :: replace_from (c :: old) new 0 (old ++ s)).
  rewrite (proj2 (startswith_prefix _ _)) by eauto.
  replace (length (c :: old) - 1)%nat with (length old) by (simpl; lia).
  rewrite replace_from_skip. reflexivity.
Qed.

Lemma replace_absent (old new s : unicode) :
  contains old s = false -> replace old new s = s.
Proof.
  unfold replace. induction s as [|c s IH]; intros Hno; [reflexivity|].
  change (contains old (c :: s))
    with (startswith (c :: s) old || contains old s) in Hno.
  apply orb_false_iff in Hno as [Hhere Hlater].
  change (replace_from old new 0 (c :: s))
    with (if startswith (c :: s) old
          then new ++ replace_from old new (length old - 1) s
          else c :: replace_from old new 0 s).
  rewrite Hhere, (IH Hlater). reflexivity.
Qed.

(** X11.  The [src] of an [img]: [images/X] becomes [{id}_X], and a
    [src] that does not mention [images/] stays as it is ([X] itself
    not mentioning [images/]). *)
Theorem rewrite_img_src (b : book) (attrs : gmap unicode unicode) (x : unicode) :
  contains (u "images/") x = false ->
  (attrs !! u "src" = Some (u "images/" ++ x) ->
   rewrite_img b (u "img") attrs
   = <[u "src" := format_int (book_id b) ++ underscore ++ x]> attrs)
  /\ (attrs !! u "src" = Some x -> rewrite_img b (u "img") attrs = attrs).
Proof.
  intros Hx. unfold rewrite_img.
  rewrite bool_decide_eq_true_2 by reflexivity. split; intros Hsrc.
  - replace (attrs !! u "src") with (Some (u "images/" ++ x)).
    rewrite replace_prefix by discriminate.
    rewrite (replace_absent _ _ _ Hx), <- app_assoc. reflexivity.
  - replace (attrs !! u "src") with (Some x).
    rewrite (replace_absent _ _ _ Hx). apply insert_id. exact Hsrc.
Qed.

Lemma rewrite_img_src_witness :
  rewrite_img (Book 7 (u "Emma") 0) (u "img") {[ u "src" := u "images/fig1.png" ]}
  = {[ u "src" := u "7_fig1.png" ]}.
Proof.
  exact (proj1 (rewrite_img_src (Book 7 (u "Emma") 0)
                  {[ u "src" := u "images/fig1.png" ]} (u "fig1.png") eq_refl)
           eq_refl).
Defined.

(** ** The manifest of an archive *)

Lemma remove_cover_refs_root (e e' : node) :
  remove_cover_refs e = Some e' -> is_cover_ref e' = is_cover_ref e.
Proof.
  destruct e as [s|nm attrs cs]; simpl.
  - intros [= <-]. reflexivity.
  - destruct ((fix below (cs0 : list node) : option (list node) :=
                 match cs0 with
                 | [] => Some []
                 | c :: cs' =>
                     if is_cover_ref c
                     then if forallb is_NavigableString (Bs4.descendants c)
                          then below cs' else None
                     else c' ← remove_cover_refs c; r ← below cs'; Some (c' :: r)
                 end) cs); simpl; [|discriminate].
    intros [= <-]. reflexivity.
Qed.

(** X12.  When the patch of the manifest goes through, no element
    with [href="cover.jpg"] is left anywhere in it. *)
Theorem remove_cover_refs_clean (e e' : node) :
  remove_cover_refs e = Some e' ->
  Forall (fun d => is_cover_ref d = false) (Bs4.descendants e').
Proof.
  revert e'. induction e as [s|nm attrs cs IH] using node_ind_contents; intros e'.
  - intros [= <-]. constructor.
  - simpl.
    match goal with
    | |- context [mbind _ (?f cs)] => set (below := f)
    end.
    destruct (below cs) as [cs'|] eqn:Hbelow; simpl; [|discriminate].
    intros [= <-]. simpl.
    revert cs' Hbelow. induction IH as [|c cs Hc _ IHcs]; intros cs' Hbelow.
    + injection Hbelow as <-. constructor.
    + simpl in Hbelow. destruct (is_cover_ref c) eqn:Href.
      * destruct (forallb is_NavigableString (Bs4.descendants c)); [|discriminate].
        apply IHcs, Hbelow.
      * destruct (remove_cover_refs c) as [c'|] eqn:Hrc; simpl in Hbelow; [|discriminate].
        fold below in Hbelow.
        destruct (below cs) as [r|] eqn:Hr; simpl in Hbelow; [|discriminate].
        injection Hbelow as <-.
        constructor; [rewrite (remove_cover_refs_root _ _ Hrc); exact Href|].
        apply Forall_app. split; [apply Hc; reflexivity | apply IHcs; reflexivity].
Qed.

Lemma remove_cover_refs_clean_witness :
  remove_cover_refs
    (tag "package"
       [Tag (u "item") {[ u "href" := u "cover.jpg" ]} [];
        Tag (u "item") {[ u "href" := u "a.html" ]} []])
  = Some (tag "package" [Tag (u "item") {[ u "href" := u "a.html" ]} []])
  /\ Forall (fun d => is_cover_ref d = false)
       (Bs4.descendants
          (tag "package" [Tag (u "item") {[ u "href" := u "a.html" ]} []])).
Proof.
  split; [vm_compute; reflexivity|].
  exact (remove_cover_refs_clean
           (tag "package"
              [Tag (u "item") {[ u "href" := u "cover.jpg" ]} [];
               Tag (u "item") {[ u "href" := u "a.html" ]} []])
           (tag "package" [Tag (u "item") {[ u "href" := u "a.html" ]} []])
           eq_refl).
Defined.

(** X13.  A manifest in which no element has [href="cover.jpg"] goes
    through the patch unchanged. *)
Theorem remove_cover_refs_without (e : node) :
  Forall (fun d => is_cover_ref d = false) (Bs4.descendants e) ->
  remove_cover_refs e = Some e.
Proof.
  induction e as [s|nm attrs cs IH] using node_ind_contents; [reflexivity|].
  simpl.
  match goal with
  | |- context [mbind _ (?f cs)] => set (below := f)
  end.
  intros Hclean.
  enough (below cs = Some cs) as -> by reflexivity.
  induction IH as [|c cs Hc _ IHcs]; [reflexivity|].
  apply Forall_cons in Hclean as [Href Hclean].
  apply Forall_app in Hclean as [Hbelow_c Hrest].
  simpl. rewrite Href, (Hc Hbelow_c). simpl.
  fold below. rewrite (IHcs Hrest). reflexivity.
Qed.

Lemma remove_cover_refs_without_witness :
  remove_cover_refs (tag "package" [Tag (u "item") {[ u "href" := u "a.html" ]} []])
  = Some (tag "package" [Tag (u "item") {[ u "href" := u "a.html" ]} []]).
Proof.
  exact (remove_cover_refs_without
           (tag "package" [Tag (u "item") {[ u "href" := u "a.html" ]} []])
           ltac:(repeat constructor)).
Defined.

(** ** More on the popularity stars *)

Lemma setitem_Some {A : Type} (l l' : list A) (i : Z) (x : A) :
  (0 <= i)%Z -> setitem l i x = Some l' ->
  (i < Z.of_nat (length l))%Z /\ l' = <[Z.to_nat i := x]> l.
Proof.
  intros Hi. unfold setitem.
  destruct (Z.leb_spec 0 i); [|lia].
  destruct (Z.ltb_spec i (Z.of_nat (length l))); simpl.
  - intros [= <-]. auto.
  - destruct (Z.leb_spec (- Z.of_nat (length l)) i), (Z.ltb_spec i 0); simpl;
      try discriminate; lia.
Qed.

Section StarsFacts.

Variable past_band : Z -> nat -> nat -> bool.

Hypothesis past_last_band :
  forall count ibook, (ibook < count)%nat -> past_band 1%Z count ibook = false.

Variable popbooks : list N.

Hypothesis descending :
  forall i j a b, (i <= j)%nat ->
    popbooks !! i = Some a -> popbooks !! j = Some b -> b <= a.

Lemma popularity_step_inv (d0 : N) (ibook : nat) (st st' : list N * Z * N) :
  popbooks !! 0%nat = Some d0 ->
  stars_inv d0 st ->
  (forall k d, (ibook <= k)%nat -> popbooks !! k = Some d -> d <= st.2) ->
  popularity_step past_band popbooks ibook st = Some st' ->
  stars_inv d0 st'
  /\ (forall k d, (S ibook <= k)%nat -> popbooks !! k = Some d -> d <= st'.2).
Proof.
  destruct st as [[limits stars] nb].
  intros Hd0 (Hlen & Hstars & Hzero & Hsorted & Habove & Hmax & Hnb) Hrest.
  simpl in Hrest. unfold popularity_step.
  destruct (popbooks !! ibook) as [d|] eqn:Hd; [|discriminate].
  cbn [mbind option_bind].
  assert (d <= nb) as Hdnb by (apply (Hrest ibook); [lia | exact Hd]).
  assert (forall k d', (S ibook <= k)%nat -> popbooks !! k = Some d' -> d' <= d) as Hrest'.
  { intros k d' Hk Hd'. apply (descending ibook k); [lia | exact Hd | exact Hd']. }
  destruct (past_band stars (length popbooks) ibook && (d <? nb)) eqn:Htest.
  - apply andb_true_iff in Htest as [Hband Hlt]. apply N.ltb_lt in Hlt.
    assert (stars <> 1%Z) as Hne.
    { intros ->. rewrite past_last_band in Hband; [discriminate|].
      apply lookup_lt_is_Some. eauto. }
    destruct (setitem limits (stars - 1) nb) as [limits'|] eqn:Hset; [|discriminate].
    apply setitem_Some in Hset as [Hin ->]; [|lia].
    cbn [mbind option_bind]. intros [= <-]. split; [|exact Hrest'].
    set (k := Z.to_nat (stars - 1)).
    assert (k < length limits)%nat as Hk by lia.
    assert (forall i a, <[k := nb]> limits !! i = Some a ->
              (i = k /\ a = nb) \/ (i <> k /\ limits !! i = Some a)) as Hcases.
    { intros i a Hi. destruct (decide (i = k)) as [->|Hik].
      - rewrite list_lookup_insert_eq in Hi by exact Hk. left. split; congruence.
      - rewrite list_lookup_insert_ne in Hi by congruence. auto. }
    unfold stars_inv. rewrite length_insert.
    split; [exact Hlen|]. split; [lia|]. split; [|split; [|split; [|split]]].
    + intros i a Hi Hlow. apply Hcases in Hi as [[-> _]|[_ Hi]]; [lia|].
      apply (Hzero i a Hi). lia.
    + intros i j a b Hij Hi Hj.
      apply Hcases in Hi as [[-> ->]|[Hik Hi]]; apply Hcases in Hj as [[-> ->]|[Hjk Hj]].
      * lia.
      * assert (nb < b) by (apply (Habove j b Hj); lia). lia.
      * assert (a = 0) as -> by (apply (Hzero i a Hi); lia). lia.
      * exact (Hsorted i j a b Hij Hi Hj).
    + intros i a Hi Hhigh. apply Hcases in Hi as [[-> ->]|[Hik Hi]]; [exact Hlt|].
      assert (nb < a) by (apply (Habove i a Hi); lia). lia.
    + intros i a Hi. apply Hcases in Hi as [[-> ->]|[_ Hi]]; [exact Hnb|].
      exact (Hmax i a Hi).
    + lia.
  - intros [= <-]. split; [|exact Hrest'].
    unfold stars_inv. repeat split; try assumption; try lia.
    intros i a Hi Hhigh. specialize (Habove i a Hi Hhigh). lia.
Qed.

Lemma popularity_loop_inv (d0 : N) (len start : nat) (st st' : list N * Z * N) :
  popbooks !! 0%nat = Some d0 ->
  stars_inv d0 st ->
  (forall k d, (start <= k)%nat -> popbooks !! k = Some d -> d <= st.2) ->
  popularity_loop past_band popbooks (seq start len) st = Some st' ->
  stars_inv d0 st'.
Proof.
  intros Hd0. revert start st.
  induction len as [|len IH]; intros start st Hinv Hrest Hloop; simpl in Hloop.
  - injection Hloop as <-. exact Hinv.
  - destruct (popularity_step past_band popbooks start st) as [st1|] eqn:Hstep;
      [|discriminate].
    cbn [mbind option_bind] in Hloop.
    destruct (popularity_step_inv d0 start st st1 Hd0 Hinv Hrest Hstep) as [Hinv1 Hrest1].
    exact (IH (S start) st1 Hinv1 Hrest1 Hloop).
Qed.

Lemma compute_stars_limits_inv (stars_limits : list N) :
  compute_stars_limits past_band popbooks = Some stars_limits ->
  exists d0 stars nb_downloads,
    popbooks !! 0%nat = Some d0 /\ stars_inv d0 (stars_limits, stars, nb_downloads).
Proof.
  unfold compute_stars_limits.
  destruct (popbooks !! 0%nat) as [d0|] eqn:Hd0; [|discriminate].
  cbn [mbind option_bind].
  destruct (popularity_loop past_band popbooks (seq 0 (length popbooks))
              (replicate (Z.to_nat NB_POPULARITY_STARS) 0, NB_POPULARITY_STARS, d0))
    as [[[limits stars] nb]|] eqn:Hloop; [|discriminate].
  cbn [mbind option_bind]. intros [= <-]. exists d0, stars, nb.
  split; [reflexivity|].
  apply (popularity_loop_inv d0 _ _ _ _ Hd0) in Hloop; [exact Hloop| |].
  - unfold stars_inv, NB_POPULARITY_STARS.
    assert (forall i a, replicate (Z.to_nat 5) 0 !! i = Some a -> a = 0) as Hrep.
    { intros i a Hi. apply lookup_replicate in Hi as [-> _]. reflexivity. }
    split; [reflexivity|]. split; [lia|].
    split; [intros i a Hi _; exact (Hrep i a Hi)|].
    split; [intros i j a b _ Hi Hj; rewrite (Hrep i a Hi); lia|].
    split; [intros i a Hi Hhigh; apply lookup_lt_Some in Hi;
            rewrite length_replicate in Hi; lia|].
    split; [intros i a Hi; rewrite (Hrep i a Hi); lia | lia].
  - intros k d _ Hk. simpl. exact (descending 0 k d0 d ltac:(lia) Hd0 Hk).
Qed.

End StarsFacts.

(** X14.  On a collection in descending order the five thresholds
    grow with the stars: none is below the one of a lower star, and the
    one of the first star is 0. *)
Theorem stars_limits_ascending (past_band : Z -> nat -> nat -> bool)
    (popbooks stars_limits : list N) :
  (forall count ibook, (ibook < count)%nat -> past_band 1%Z count ibook = false) ->
  (forall i j a b, (i <= j)%nat ->
     popbooks !! i = Some a -> popbooks !! j = Some b -> b <= a) ->
  compute_stars_limits past_band popbooks = Some stars_limits ->
  length stars_limits = 5%nat
  /\ stars_limits !! 0%nat = Some 0
  /\ (forall i j a b, (i <= j)%nat ->
        stars_limits !! i = Some a -> stars_limits !! j = Some b -> a <= b).
Proof.
  intros Hband Hdesc Hlimits.
  destruct (compute_stars_limits_inv past_band Hband popbooks Hdesc _ Hlimits)
    as (d0 & stars & nb & _ & Hlen & Hstars & Hzero & Hsorted & _).
  split; [exact Hlen|]. split; [|exact Hsorted].
  destruct stars_limits as [|l0 r]; [discriminate|].
  simpl. f_equal. apply (Hzero 0%nat l0); [reflexivity | lia].
Qed.

(** X15.  On a collection in descending order every book gets between
    1 and 5 stars, and the first book, with the most downloads, gets
    5. *)
Theorem popularity_bounds (past_band : Z -> nat -> nat -> bool)
    (popbooks stars_limits : list N) (d0 : N) :
  (forall count ibook, (ibook < count)%nat -> past_band 1%Z count ibook = false) ->
  (forall i j a b, (i <= j)%nat ->
     popbooks !! i = Some a -> popbooks !! j = Some b -> b <= a) ->
  compute_stars_limits past_band popbooks = Some stars_limits ->
  popbooks !! 0%nat = Some d0 ->
  popularity stars_limits d0 = Some 5%nat
  /\ (forall downloads, exists stars,
        popularity stars_limits downloads = Some stars /\ (1 <= stars <= 5)%nat).
Proof.
  intros Hband Hdesc Hlimits Hd0.
  destruct (compute_stars_limits_inv past_band Hband popbooks Hdesc _ Hlimits)
    as (d0' & stars & nb & Hd0' & Hlen & Hstars & Hzero & _ & _ & Hmax & _).
  assert (d0' = d0) as -> by congruence.
  destruct stars_limits as [|l0 [|l1 [|l2 [|l3 [|l4 [|l5 r]]]]]]; try discriminate.
  assert (l0 = 0) as -> by (apply (Hzero 0%nat); [reflexivity | lia]).
  split.
  - rewrite popularity_thresholds_met by reflexivity.
    pose proof (Hmax 1%nat l1 eq_refl). pose proof (Hmax 2%nat l2 eq_refl).
    pose proof (Hmax 3%nat l3 eq_refl). pose proof (Hmax 4%nat l4 eq_refl).
    unfold thresholds_met. simpl.
    destruct (N.leb_spec 0 d0), (N.leb_spec l1 d0), (N.leb_spec l2 d0),
      (N.leb_spec l3 d0), (N.leb_spec l4 d0); try lia. reflexivity.
  - intros d. rewrite popularity_thresholds_met by reflexivity.
    eexists. split; [reflexivity|].
    unfold thresholds_met. simpl.
    destruct (N.leb_spec 0 d); [|lia].
    destruct (l1 <=? d), (l2 <=? d), (l3 <=? d), (l4 <=? d); simpl; lia.
Qed.

Lemma example_descending (i j : nat) (a b : N) :
  (i <= j)%nat ->
  [100; 100; 90; 80; 80; 80; 10] !! i = Some a ->
  [100; 100; 90; 80; 80; 80; 10] !! j = Some b -> b <= a.
Proof.
  intros Hij Ha Hb.
  do 7 (destruct i as [|i]; [do 7 (destruct j as [|j]; [simplify_eq/=; lia|]);
                               discriminate|]).
  discriminate.
Qed.

Lemma stars_limits_ascending_witness :
  compute_stars_limits past_band_exact [100; 100; 90; 80; 80; 80; 10]
  = Some [0; 0; 80; 90; 100]
  /\ forall i j a b, (i <= j)%nat ->
       [0; 0; 80; 90; 100] !! i = Some a -> [0; 0; 80; 90; 100] !! j = Some b -> a <= b.
Proof.
  split; [reflexivity|].
  exact (proj2 (proj2 (stars_limits_ascending past_band_exact
                         [100; 100; 90; 80; 80; 80; 10] [0; 0; 80; 90; 100]
                         past_band_exact_last example_descending eq_refl))).
Defined.

Lemma popularity_bounds_witness :
  popularity [0; 0; 80; 90; 100] 100 = Some 5%nat
  /\ (forall downloads, exists stars,
        popularity [0; 0; 80; 90; 100] downloads = Some stars /\ (1 <= stars <= 5)%nat).
Proof.
  exact (popularity_bounds past_band_exact
           [100; 100; 90; 80; 80; 80; 10] [0; 0; 80; 90; 100] 100
           past_band_exact_last example_descending eq_refl eq_refl).
Defined.

(** ** Names of the exported files *)

(** X16.  The archive name of a book in a format is the name of one of
    its two pages only for the format [html], and then of the article:
    the loop over the other formats, which leaves [html] out, never
    writes over a page of its book. *)
Theorem archive_name_is_article_name (b : book) (format : unicode) (cover : bool) :
  archive_name_for b format = article_name_for b cover
  <-> format = u "html" /\ cover = false.
Proof.
  unfold archive_name_for, article_name_for. split.
  - intros Heq. apply app_inv_head in Heq.
    destruct cover; [discriminate|].
    simpl in Heq. injection Heq as Heq.
    apply app_inv_head in Heq. injection Heq as ->. auto.
  - intros [-> ->]. reflexivity.
Qed.

(** ** More on the archive patcher *)

Lemma rsplit1_Some (sep : N) (s a b : unicode) :
  rsplit1 sep s = Some (a, b) -> s = a ++ sep :: b /\ sep ∉ b.
Proof.
  revert a. induction s as [|c s IH]; intros a; simpl; [discriminate|].
  destruct (rsplit1 sep s) as [[a' b']|] eqn:Hs.
  - intros [= <- <-]. destruct (IH a' eq_refl) as [-> Hb]. auto.
  - destruct (N.eqb_spec c sep) as [->|]; [|discriminate].
    intros [= <- <-]. split; [reflexivity|].
    intros Hin. clear IH. induction s as [|d s IHs]; [inversion Hin|].
    simpl in Hs. destruct (rsplit1 sep s) as [[? ?]|]; [discriminate|].
    destruct (N.eqb_spec d sep); [discriminate|].
    apply elem_of_cons in Hin as [->|Hin]; [congruence | auto].
Qed.

Lemma rsplit1_None (sep : N) (s : unicode) :
  rsplit1 sep s = None -> sep ∉ s.
Proof.
  induction s as [|c s IH]; simpl; [intros _; apply not_elem_of_nil|].
  destruct (rsplit1 sep s) as [[? ?]|]; [discriminate|].
  destruct (N.eqb_spec c sep); [discriminate|].
  intros _. apply not_elem_of_cons. auto.
Qed.

(** The extension of a name that ends in [stem.e], with a stem of the
    last component that is not made of dots alone. *)
Lemma ext_of_suffix (p stem e : unicode) :
  47 ∉ stem -> 47 ∉ e -> 46 ∉ e -> forallb (N.eqb 46) stem = false ->
  ext (p ++ stem ++ 46 :: e) = 46 :: e.
Proof.
  intros Hstem He Hdot Hdots. unfold ext.
  assert (exists q, (match rsplit1 47 (p ++ stem ++ 46 :: e) with
                     | Some (_, base) => base
                     | None => p ++ stem ++ 46 :: e
                     end) = q ++ stem ++ 46 :: e) as [q ->].
  { destruct (rsplit1 47 (p ++ stem ++ 46 :: e)) as [[a base]|] eqn:Hsplit; [|eauto].
    apply rsplit1_Some in Hsplit as [Heq Hbase].
    assert (47 ∉ stem ++ 46 :: e) as Htail.
    { intros Hin. apply elem_of_app in Hin as [Hin|Hin]; [exact (Hstem Hin)|].
      apply elem_of_cons in Hin as [Hin|Hin]; [discriminate | exact (He Hin)]. }
    revert Heq Htail Hbase. generalize (stem ++ 46 :: e) as t. intros t.
    revert a. induction p as [|c p IH]; intros a Heq Htail Hbase.
    - exfalso. simpl in Heq. apply Htail. rewrite Heq.
      apply elem_of_app. right. left.
    - destruct a as [|c' a]; simpl in Heq; injection Heq as -> Heq.
      + exists p. symmetry. exact Heq.
      + exact (IH a Heq Htail Hbase). }
  rewrite app_assoc, (rsplit1_last 46 (q ++ stem) e Hdot).
  rewrite forallb_app, Hdots, andb_false_r. reflexivity.
Qed.

(** A name that ends in [cover.jpg] has the extension [.jpg]. *)
Lemma ext_cover (fname : unicode) :
  endswith fname (u "cover.jpg") = true -> ext fname = u ".jpg".
Proof.
  unfold endswith. intros Hend.
  apply startswith_prefix in Hend as [t Ht].
  apply (f_equal (@rev N)) in Ht. rewrite rev_involutive, rev_app_distr, rev_involutive in Ht.
  subst fname.
  apply (ext_of_suffix (rev t) (u "cover") (u "jpg")).
  - apply (bool_decide_unpack _). vm_compute. exact I.
  - apply (bool_decide_unpack _). vm_compute. exact I.
  - apply (bool_decide_unpack _). vm_compute. exact I.
  - reflexivity.
Qed.

(** X17.  A bad cover ([...cover.jpg], flagged by [is_bad_cover]) is
    taken off the list of the entries and [remove_cover] is set; no
    command is run on it and nothing is written. *)
Theorem bad_cover_taken_off (parse : list N -> option node)
    (encode : bool -> node -> option (list N)) (render_infobox : book -> option node)
    (parse_xml : list N -> option node) (encode_xml : node -> option (list N))
    (is_bad_cover : unicode -> bool) (b : book)
    (tmpd : nat) (fname : unicode) (zipped_files : list unicode)
    (remove_cover : bool) (w : world) :
  flagged is_bad_cover fname ->
  entry_body parse encode render_infobox parse_xml encode_xml is_bad_cover b
    tmpd fname zipped_files remove_cover w
  = (Returned (list_remove fname zipped_files, true), w).
Proof.
  intros [Hend Hbad]. unfold entry_body.
  pose proof (ext_cover fname Hend) as Hext.
  assert (ext fname ∈ [u ".png"; u ".jpeg"; u ".jpg"; u ".gif"]) as Himg.
  { rewrite Hext. right. right. left. }
  destruct (image_not_markup fname Himg) as [-> ->].
  rewrite (bool_decide_eq_true_2 _ Himg), Hend, Hbad. reflexivity.
Qed.

Lemma bad_cover_taken_off_witness :
  entry_body (fun _ => Some page_titled) (fun _ _ => Some [0])
    (fun _ => Some (tag "div" []))
    (fun _ => Some ncx_license) (fun _ => Some [0]) (fun _ => true) emma
    0 (u "11/cover.jpg") epub_cover.*1 false (World ∅ [])
  = (Returned (list_remove (u "11/cover.jpg") epub_cover.*1, true), World ∅ []).
Proof.
  exact (bad_cover_taken_off (fun _ => Some page_titled) (fun _ _ => Some [0])
           (fun _ => Some (tag "div" []))
           (fun _ => Some ncx_license) (fun _ => Some [0]) (fun _ => true) emma
           0 (u "11/cover.jpg") epub_cover.*1 false (World ∅ [])
           (conj eq_refl eq_refl)).
Defined.

Lemma list_remove_sublist (fname : unicode) (l : list unicode) :
  list_remove fname l `sublist_of` l.
Proof.
  induction l as [|f l IH]; simpl; [constructor|].
  case_bool_decide; [apply sublist_cons; reflexivity | apply sublist_skip, IH].
Qed.

Lemma list_remove_other (fname f : unicode) (l : list unicode) :
  f ∈ l -> f <> fname -> f ∈ list_remove fname l.
Proof.
  induction l as [|g l IH]; simpl; intros Hin Hne; [inversion Hin|].
  apply elem_of_cons in Hin as [->|Hin].
  - rewrite bool_decide_eq_false_2 by exact Hne. left.
  - case_bool_decide; [exact Hin | right; auto].
Qed.

Section RepackFacts.

Variable parse : list N -> option node.
Variable encode : bool -> node -> option (list N).
Variable render_infobox : book -> option node.
Variable parse_xml : list N -> option node.
Variable encode_xml : node -> option (list N).
Variable is_bad_cover : unicode -> bool.
Variable b : book.

(** A run of the loop body that returns: the loop variables are as
    they were, or the entry was a flagged cover. *)
Lemma entry_body_outcome (tmpd : nat) (fname : unicode)
    (zipped_files zipped_files' : list unicode)
    (remove_cover remove_cover' : bool) (w w' : world) :
  entry_body parse encode render_infobox parse_xml encode_xml is_bad_cover b
    tmpd fname zipped_files remove_cover w
  = (Returned (zipped_files', remove_cover'), w') ->
  (zipped_files' = zipped_files /\ remove_cover' = remove_cover)
  \/ (zipped_files' = list_remove fname zipped_files /\ flagged is_bad_cover fname).
Proof.
  unfold Epub.entry_body. intros Hrun.
  destruct (bool_decide (ext fname ∈ [u ".png"; u ".jpeg"; u ".jpg"; u ".gif"])) eqn:Himg.
  - apply bool_decide_eq_true_1 in Himg.
    destruct (image_not_markup fname Himg) as [Hhtm Hncx].
    rewrite Hhtm, Hncx in Hrun.
    destruct (endswith fname (u "cover.jpg") && is_bad_cover fname) eqn:Hflag.
    + right. apply andb_true_iff in Hflag.
      injection Hrun as <- <- <-. auto.
    + left. rewrite bind_unfold in Hrun.
      destruct ((optimize_image fname;; mret (zipped_files, remove_cover)) w)
        as [[[zf rc]|] w1] eqn:Hopt; [|discriminate].
      apply seq_returns in Hopt as [w0 Hopt]. injection Hopt as <- <- <-.
      injection Hrun as <- <- <-. auto.
  - left. rewrite bind_unfold in Hrun. cbv beta iota in Hrun.
    change ((mret (zipped_files, remove_cover) : M _) w)
      with (Returned (zipped_files, remove_cover), w) in Hrun.
    cbv beta iota in Hrun.
    apply seq_returns in Hrun as [w1 Hrun].
    apply seq_returns in Hrun as [w2 Hrun].
    injection Hrun as <- <- <-. auto.
Qed.

(** The loop takes nothing but flagged covers off the list, and keeps
    the order of what stays. *)
Lemma for_zipped_files_within (tmpd fuel : nat) (zipped_files : list unicode)
    (i : nat) (remove_cover : bool) (w : world)
    (zipped_files' : list unicode) (remove_cover' : bool) (w' : world) :
  for_zipped_files parse encode render_infobox parse_xml encode_xml is_bad_cover b
    fuel tmpd zipped_files i remove_cover w
  = (Returned (zipped_files', remove_cover'), w') ->
  zipped_files' `sublist_of` zipped_files
  /\ (forall f, f ∈ zipped_files -> ~ flagged is_bad_cover f -> f ∈ zipped_files').
Proof.
  revert zipped_files i remove_cover w.
  induction fuel as [|fuel IH]; intros zipped_files i remove_cover w Hrun; simpl in Hrun.
  - injection Hrun as <- <- <-. split; [reflexivity | auto].
  - destruct (zipped_files !! i) as [fname|].
    2:{ injection Hrun as <- <- <-. split; [reflexivity | auto]. }
    rewrite bind_unfold in Hrun.
    destruct (entry_body parse encode render_infobox parse_xml encode_xml is_bad_cover b
                tmpd fname zipped_files remove_cover w)
      as [[[zf rc]|] w1] eqn:Hbody; [|discriminate].
    apply IH in Hrun as [Hsub Hkept].
    destruct (entry_body_outcome _ _ _ _ _ _ _ _ Hbody) as [[-> ->] | [-> Hflag]].
    + auto.
    + split; [etrans; [exact Hsub | apply list_remove_sublist]|].
      intros f Hin Hf. apply Hkept; [|exact Hf].
      apply list_remove_other; [exact Hin|]. intros ->. exact (Hf Hflag).
Qed.

(** With no flagged cover on the list the loop leaves its variables as
    they were. *)
Lemma for_zipped_files_unflagged (tmpd fuel : nat) (zipped_files : list unicode)
    (i : nat) (remove_cover : bool) (w : world)
    (zipped_files' : list unicode) (remove_cover' : bool) (w' : world) :
  (forall f, f ∈ zipped_files -> ~ flagged is_bad_cover f) ->
  for_zipped_files parse encode render_infobox parse_xml encode_xml is_bad_cover b
    fuel tmpd zipped_files i remove_cover w
  = (Returned (zipped_files', remove_cover'), w') ->
  zipped_files' = zipped_files /\ remove_cover' = remove_cover
  /\ exists evs, trace w' = trace w ++ evs
       /\ Forall (fun ev => exists f, f ∈ zipped_files /\ event_entry ev = Some f) evs.
Proof.
  intros Hnone. revert i remove_cover w.
  induction fuel as [|fuel IH]; intros i remove_cover w Hrun; simpl in Hrun.
  - injection Hrun as <- <- <-. split; [reflexivity|]. split; [reflexivity|].
    exists []. rewrite app_nil_r. split; [reflexivity | constructor].
  - destruct (zipped_files !! i) as [fname|] eqn:Hi.
    2:{ injection Hrun as <- <- <-. split; [reflexivity|]. split; [reflexivity|].
        exists []. rewrite app_nil_r. split; [reflexivity | constructor]. }
    rewrite bind_unfold in Hrun.
    pose proof (respects_entry_body parse encode render_infobox parse_xml
                  encode_xml is_bad_cover b tmpd fname zipped_files
                  remove_cover w) as ((evs_f & Htr & Habout) & _).
    destruct (entry_body parse encode render_infobox parse_xml encode_xml is_bad_cover b
                tmpd fname zipped_files remove_cover w)
      as [[[zf rc]|] w1] eqn:Hbody; [|discriminate].
    simpl in Htr.
    assert (fname ∈ zipped_files) as Hin by (eapply list_elem_of_lookup_2; exact Hi).
    destruct (entry_body_outcome _ _ _ _ _ _ _ _ Hbody) as [[-> ->] | [_ Hflag]].
    2:{ exfalso. exact (Hnone fname Hin Hflag). }
    apply IH in Hrun as (-> & -> & evs & Htr' & Hevs).
    split; [reflexivity|]. split; [reflexivity|].
    exists (evs_f ++ evs). split; [rewrite Htr', Htr, app_assoc; reflexivity|].
    apply Forall_app. split; [|exact Hevs].
    eapply Forall_impl; [exact Habout|]. intros ev Hev. eauto.
Qed.

Lemma respects_for_zipped_files_entries (tmpd fuel : nat)
    (zipped_files : list unicode) (i : nat) (remove_cover : bool) :
  respects (step_in tmpd (fun ev => is_Some (event_entry ev)))
    (for_zipped_files parse encode render_infobox parse_xml encode_xml is_bad_cover b
       fuel tmpd zipped_files i remove_cover).
Proof.
  revert zipped_files i remove_cover.
  induction fuel as [|fuel IH]; intros zipped_files i remove_cover; simpl.
  - apply respects_ret.
  - destruct (zipped_files !! i) as [fname|]; [|apply respects_ret].
    apply respects_bind.
    + eapply respects_weaken; [|apply respects_entry_body].
      intros ev Hev. simpl in Hev. rewrite Hev. eauto.
    + intros [zf rc]. apply IH.
Qed.

Lemma respects_drop_cover_entries (tmpd : nat) :
  respects (step_in tmpd (fun ev => is_Some (event_entry ev)))
    (drop_cover parse_xml encode_xml b tmpd).
Proof.
  unfold Epub.drop_cover.
  apply respects_bind; [apply respects_unlink_p | intros _].
  apply respects_bind; [apply respects_exists | intros there].
  destruct there; [|apply respects_ret].
  apply respects_bind; [apply respects_read | intros data].
  apply respects_bind; [apply respects_lift | intros soup].
  apply respects_bind; [apply respects_lift | intros data'].
  apply respects_write. simpl. eauto.
Qed.

(** A run of [optimize_epub] that returns, taken apart: the loop and
    what it left, the patch of the manifest, and the two [zip]
    commands. *)
Lemma optimize_epub_returns (src : option (list (unicode * list N)))
    (dst : unicode) (w w' : world) (tmpd : nat) :
  optimize_epub parse encode render_infobox parse_xml encode_xml is_bad_cover b
    src dst w = (Returned tmpd, w') ->
  exists zf w2 w3 w4 zipped_files remove_cover,
    src = Some zf
    /\ trace w2 = trace w
    /\ for_zipped_files parse encode render_infobox parse_xml encode_xml is_bad_cover b
         (length zf.*1) tmpd zf.*1 0 false w2
       = (Returned (zipped_files, remove_cover), w3)
    /\ (if remove_cover
        then step_in tmpd (fun ev => is_Some (event_entry ev)) w3 w4
        else w4 = w3)
    /\ trace w'
       = trace w4 ++ [Zip_stored dst [u "mimetype"];
                      Zip_deflated dst (filter (fun f => f ≠ u "mimetype") zipped_files)].
Proof.
  unfold Epub.optimize_epub. rewrite bind_unfold.
  set (tmpd0 := fresh (dom (tmp_folders w))).
  set (w1 := World (<[tmpd0 := ∅]> (tmp_folders w)) (trace w)).
  change (mkdtemp w) with (Returned tmpd0, w1).
  cbv beta iota. rewrite bind_unfold.
  destruct src as [zf|]; [|discriminate].
  change (lift (Some zf) w1) with (Returned zf, w1). cbv beta iota.
  rewrite bind_unfold.
  set (w2 := World (<[tmpd0 := list_to_map (reverse zf)]> (tmp_folders w1)) (trace w1)).
  change (extractall tmpd0 zf w1) with (Returned (), w2).
  cbv beta iota. rewrite bind_unfold.
  destruct (for_zipped_files parse encode render_infobox parse_xml encode_xml
              is_bad_cover b (length zf.*1) tmpd0 zf.*1 0 false w2)
    as [[[zipped_files remove_cover]|] w3] eqn:Hloop; [|discriminate].
  rewrite bind_unfold.
  pose proof (respects_drop_cover_entries tmpd0 w3) as Hdrop.
  destruct ((if remove_cover then drop_cover parse_xml encode_xml b tmpd0 else mret ()) w3)
    as [[[]|] w4] eqn:Hpatch; [|discriminate].
  intros Hrun. injection Hrun as <- <-.
  exists zf, w2, w3, w4, zipped_files, remove_cover.
  split; [reflexivity|]. split; [reflexivity|]. split; [exact Hloop|].
  split; [|simpl; rewrite <- app_assoc; reflexivity].
  destruct remove_cover.
  - rewrite Hpatch in Hdrop. exact Hdrop.
  - injection Hpatch as <-. reflexivity.
Qed.

End RepackFacts.

(** X18.  A run of [optimize_epub] that returns ends with the two [zip]
    commands, run once each: [mimetype] alone, then the names left on
    the list without [mimetype].  These are names of the archive in the
    order of the archive, and every name of it that is not a flagged
    cover is among them; all that comes before is a command on a file
    or the writing of one. *)
Theorem optimize_epub_repacks (parse : list N -> option node)
    (encode : bool -> node -> option (list N)) (render_infobox : book -> option node)
    (parse_xml : list N -> option node) (encode_xml : node -> option (list N))
    (is_bad_cover : unicode -> bool) (b : book)
    (src : option (list (unicode * list N))) (dst : unicode)
    (w w' : world) (tmpd : nat) :
  optimize_epub parse encode render_infobox parse_xml encode_xml is_bad_cover b
    src dst w = (Returned tmpd, w') ->
  exists zf evs files,
    src = Some zf
    /\ trace w' = trace w ++ evs ++ [Zip_stored dst [u "mimetype"]; Zip_deflated dst files]
    /\ Forall (fun ev => is_Some (event_entry ev)) evs
    /\ files `sublist_of` zf.*1
    /\ (u "mimetype" ∉ files)
    /\ (forall f, f ∈ zf.*1 -> f <> u "mimetype" -> ~ flagged is_bad_cover f -> f ∈ files).
Proof.
  intros Hrun.
  apply optimize_epub_returns in Hrun
    as (zf & w2 & w3 & w4 & zipped_files & remove_cover & -> & Hw2 & Hloop & Hpatch & Htr).
  pose proof (respects_for_zipped_files_entries parse encode render_infobox parse_xml
                encode_xml is_bad_cover b tmpd (length zf.*1) zf.*1 0 false w2)
    as ((evs1 & Htr1 & Hevs1) & _).
  rewrite Hloop in Htr1. simpl in Htr1.
  apply for_zipped_files_within in Hloop as [Hsub Hkept].
  assert (exists evs2, trace w4 = trace w3 ++ evs2
                       /\ Forall (fun ev => is_Some (event_entry ev)) evs2)
    as (evs2 & Htr2 & Hevs2).
  { destruct remove_cover.
    - destruct Hpatch as [Hp _]. exact Hp.
    - subst w4. exists []. rewrite app_nil_r. split; [reflexivity | constructor]. }
  exists zf, (evs1 ++ evs2), (filter (fun f => f ≠ u "mimetype") zipped_files).
  split; [reflexivity|].
  split; [rewrite Htr, Htr2, Htr1, Hw2, <- !app_assoc; reflexivity|].
  split; [apply Forall_app; auto|].
  split; [etrans; [apply sublist_filter | exact Hsub]|].
  split.
  - intros Hin. apply list_elem_of_filter in Hin as [Hne _]. exact (Hne eq_refl).
  - intros f Hin Hne Hf. apply list_elem_of_filter. auto.
Qed.

Lemma optimize_epub_repacks_witness :
  let run :=
    optimize_epub (fun _ => Some page_titled) (fun _ _ => Some [0])
      (fun _ => Some (tag "div" []))
      (fun _ => Some ncx_license) (fun _ => Some [0]) (fun _ => true) emma
      (Some epub_cover) (u "out.epub") (World ∅ []) in
  run.1 = Returned 0%nat
  /\ exists zf evs files,
       Some epub_cover = Some zf
       /\ trace run.2
          = [] ++ evs ++ [Zip_stored (u "out.epub") [u "mimetype"];
                          Zip_deflated (u "out.epub") files]
       /\ Forall (fun ev => is_Some (event_entry ev)) evs
       /\ files `sublist_of` zf.*1
       /\ (u "mimetype" ∉ files)
       /\ (forall f, f ∈ zf.*1 -> f <> u "mimetype" ->
             ~ flagged (fun _ => true) f -> f ∈ files).
Proof.
  split; [vm_compute; reflexivity|].
  apply (optimize_epub_repacks (fun _ => Some page_titled) (fun _ _ => Some [0])
           (fun _ => Some (tag "div" []))
           (fun _ => Some ncx_license) (fun _ => Some [0]) (fun _ => true) emma
           (Some epub_cover) (u "out.epub") (World ∅ []) _ 0%nat).
  vm_compute. reflexivity.
Defined.

(** X19.  An archive with no flagged cover among its names: a run of
    [optimize_epub] that returns packs all its names but [mimetype], in
    the order of the archive, and before that does nothing but run
    commands on entries of the archive and write them; the manifest is
    not patched. *)
Theorem optimize_epub_keeps_all (parse : list N -> option node)
    (encode : bool -> node -> option (list N)) (render_infobox : book -> option node)
    (parse_xml : list N -> option node) (encode_xml : node -> option (list N))
    (is_bad_cover : unicode -> bool) (b : book)
    (zf : list (unicode * list N)) (dst : unicode)
    (w w' : world) (tmpd : nat) :
  (forall f, f ∈ zf.*1 -> ~ flagged is_bad_cover f) ->
  optimize_epub parse encode render_infobox parse_xml encode_xml is_bad_cover b
    (Some zf) dst w = (Returned tmpd, w') ->
  exists evs,
    trace w'
    = trace w ++ evs
      ++ [Zip_stored dst [u "mimetype"];
          Zip_deflated dst (filter (fun f => f ≠ u "mimetype") zf.*1)]
    /\ Forall (fun ev => exists f, f ∈ zf.*1 /\ event_entry ev = Some f) evs.
Proof.
  intros Hnone Hrun.
  apply optimize_epub_returns in Hrun
    as (zf' & w2 & w3 & w4 & zipped_files & remove_cover & Hsrc & Hw2 & Hloop & Hpatch & Htr).
  injection Hsrc as <-.
  apply for_zipped_files_unflagged in Hloop as (-> & -> & evs & Htr1 & Hevs);
    [|exact Hnone].
  subst w4. exists evs.
  split; [rewrite Htr, Htr1, Hw2, <- app_assoc; reflexivity | exact Hevs].
Qed.

Lemma optimize_epub_keeps_all_witness :
  let run :=
    optimize_epub (fun _ => Some page_titled) (fun _ _ => Some [0])
      (fun _ => Some (tag "div" []))
      (fun _ => Some ncx_license) (fun _ => Some [0]) (fun _ => true) emma
      (Some epub_page) (u "out.epub") (World ∅ []) in
  run.1 = Returned 0%nat
  /\ exists evs,
       trace run.2
       = [] ++ evs ++ [Zip_stored (u "out.epub") [u "mimetype"];
                       Zip_deflated (u "out.epub")
                         (filter (fun f => f ≠ u "mimetype") epub_page.*1)]
       /\ Forall (fun ev => exists f, f ∈ epub_page.*1 /\ event_entry ev = Some f) evs.
Proof.
  split; [vm_compute; reflexivity|].
  apply (optimize_epub_keeps_all (fun _ => Some page_titled) (fun _ _ => Some [0])
           (fun _ => Some (tag "div" []))
           (fun _ => Some ncx_license) (fun _ => Some [0]) (fun _ => true) emma
           epub_page (u "out.epub") (World ∅ []) _ 0%nat).
  - intros f Hin [Hend _]. revert Hend.
    apply elem_of_cons in Hin as [->|Hin]; [vm_compute; discriminate|].
    apply elem_of_cons in Hin as [->|Hin]; [vm_compute; discriminate|].
    inversion Hin.
  - vm_compute. reflexivity.
Defined.

(** ** The page after the patch *)

(** What [alter_first] does, read with [find]: the tag [find] gives
    before is the tag [find] gives after, with [f] applied to its
    contents. *)
Lemma alter_first_find (name : unicode) (f : list node -> list node) (e e' : node) :
  alter_first name f e = Some e' ->
  (exists attrs cs, e = Tag name attrs cs /\ e' = Tag name attrs (f cs))
  \/ (named name e = false /\ named name e' = false
      /\ exists attrs cs,
           Bs4.find name e = Some (Tag name attrs cs)
           /\ Bs4.find name e' = Some (Tag name attrs (f cs))).
Proof.
  revert e'. induction e as [s|nm attrs cs IH] using node_ind_contents;
    intros e'; [discriminate|].
  simpl. case_bool_decide as Hnm.
  - intros [= <-]. subst nm. left. eauto.
  - intros Hsome. right.
    destruct ((fix below (cs0 : list node) : option (list node) :=
                 match cs0 with
                 | [] => None
                 | c0 :: cs' =>
                     match alter_first name f c0 with
                     | Some c'0 => Some (c'0 :: cs')
                     | None => option_map (cons c0) (below cs')
                     end
                 end) cs) as [cs1|] eqn:Hbelow; [|discriminate].
    injection Hsome as <-. simpl.
    rewrite (bool_decide_eq_false_2 _ Hnm).
    split; [reflexivity|]. split; [reflexivity|].
    unfold Bs4.find. rewrite !findAll_Tag.
    revert cs1 Hbelow.
    induction IH as [|c cs Hc _ IHcs]; intros cs1 Hbelow; [discriminate|].
    destruct (alter_first name f c) as [c'|] eqn:Hfirst.
    + injection Hbelow as <-.
      destruct (Hc c' eq_refl) as [(at_ & cs0 & -> & ->) | (Hn & Hn' & at_ & cs0 & Hf & Hf')].
      * exists at_, cs0. simpl. rewrite !bool_decide_eq_true_2 by reflexivity.
        split; reflexivity.
      * exists at_, cs0. simpl. rewrite Hn, Hn'. simpl.
        unfold Bs4.find in Hf, Hf'.
        destruct (Bs4.findAll name c) as [|x l]; [discriminate|].
        destruct (Bs4.findAll name c') as [|x' l']; [discriminate|].
        simpl in *. auto.
    + destruct ((fix below (cs0 : list node) : option (list node) :=
                   match cs0 with
                   | [] => None
                   | c0 :: cs' =>
                       match alter_first name f c0 with
                       | Some c'0 => Some (c'0 :: cs')
                       | None => option_map (cons c0) (below cs')
                       end
                   end) cs) as [cs2|] eqn:Hrest; [|discriminate].
      injection Hbelow as <-.
      apply alter_first_None in Hfirst as [Hn Hnil].
      destruct (IHcs cs2 eq_refl) as (at_ & cs0 & Hf & Hf').
      exists at_, cs0. simpl. rewrite Hn, Hnil. simpl. auto.
Qed.

Lemma named_map_tags (name : unicode)
    (f : unicode -> gmap unicode unicode -> gmap unicode unicode) (e : node) :
  named name (map_tags f e) = named name e.
Proof. destruct e; reflexivity. Qed.

Lemma named_alter_first (name nm : unicode) (f : list node -> list node) (e e' : node) :
  alter_first nm f e = Some e' -> named name e' = named name e.
Proof.
  destruct e as [s|nm' attrs cs]; simpl; [discriminate|].
  case_bool_decide; [intros [= <-]; reflexivity|].
  destruct ((fix below (cs0 : list node) : option (list node) :=
               match cs0 with
               | [] => None
               | c0 :: cs' =>
                   match alter_first nm f c0 with
                   | Some c'0 => Some (c'0 :: cs')
                   | None => option_map (cons c0) (below cs')
                   end
               end) cs); simpl; [intros [= <-]; reflexivity | discriminate].
Qed.

(** X20.  After the patch of a page outside an archive the info box of
    the book is the first element of the body, of the first [body] tag
    of the page. *)
Theorem infobox_first_in_body (render_infobox : book -> option node)
    (b : book) (soup soup' : node) :
  named (u "body") soup = false ->
  update_soup_for_static render_infobox b false soup = Some soup' ->
  exists infobox attrs cs,
    render_infobox b = Some infobox
    /\ Bs4.find (u "body") soup' = Some (Tag (u "body") attrs (infobox :: cs)).
Proof.
  intros Hroot. unfold update_soup_for_static. cbn [mbind option_bind].
  destruct (alter_first (u "title") _ _) as [soup1|] eqn:Htitle; [|discriminate].
  simpl.
  destruct (alter_first (u "body") strip_body soup1) as [soup2|] eqn:Hbody; [|discriminate].
  simpl.
  destruct (render_infobox b) as [infobox|]; [|discriminate].
  simpl. intros Hlast.
  assert (named (u "body") soup2 = false) as Hroot2.
  { rewrite (named_alter_first _ _ _ _ _ Hbody), (named_alter_first _ _ _ _ _ Htitle).
    rewrite !named_map_tags. exact Hroot. }
  apply alter_first_find in Hlast as [(at_ & cs & -> & ->) | (_ & _ & at_ & cs & _ & Hf)].
  - unfold named in Hroot2.
    rewrite bool_decide_eq_true_2 in Hroot2 by reflexivity. discriminate.
  - eauto.
Qed.

Lemma infobox_first_in_body_witness :
  exists infobox attrs cs,
    Some (tag "div" []) = Some infobox
    /\ Bs4.find (u "body")
         (tag "[document]"
            [tag "html" [tag "head" [tag "title" [text "Emma"]];
                         tag "body" [tag "div" []; para "chapter"; nl; para "end"]]])
       = Some (Tag (u "body") attrs (infobox :: cs)).
Proof.
  exact (infobox_first_in_body (fun _ => Some (tag "div" [])) emma page_titled
           (tag "[document]"
              [tag "html" [tag "head" [tag "title" [text "Emma"]];
                           tag "body" [tag "div" []; para "chapter"; nl; para "end"]]])
           eq_refl ltac:(vm_compute; reflexivity)).
Defined.
